(** * pocket-pitch: NDEF URI writer and reader of [sketch_nov2a.ino]

    A shallow embedding of the NFC part of the sketch
    ([writeNtagUri], [readNtagNdefUri]) and of its scheduler ([loop]),
    followed by the properties the specification states about them; then
    the rest of the sketch ([displayQRCodeWithLabel], [waitForTagRemoval],
    [printKeyHex]), the [loop] of the two other sketches of the
    repository, and further properties read off the code.

    Conventions of the embedding:
    - a [uint8_t] is a [Z]; the casts [(uint8_t)e] are written out as
      [to_u8 e = e mod 256], [uint16_t] increments as [to_u16], and
      [unsigned long] subtraction as [to_ulong];
    - a [size_t] or [int] counter used as an array index is a [nat]
      (none of them gets near its upper bound: the largest is 520);
    - a C array is a list of its cells, written with stdpp's
      [<[i:=v]>] and read with [a.[i]];
    - a [const char *] is the list of the characters that precede its
      terminating NUL;
    - an Arduino [String] is the list of its characters, as byte values;
    - the PN532 driver and the e-paper panel are not part of the
      sketch: the driver is the interface [PagedTagTransport], and every
      call to either is recorded in a trace of events;
    - [Serial] output and [delay] do not touch anything modelled here
      and are left out. *)

From stdpp Require Import base numbers list strings.

Local Open Scope Z_scope.

(** ** Machine integers *)

Definition to_u8 (z : Z) : Z := z mod 256.
Definition to_u16 (z : Z) : Z := z mod 65536.
Definition to_ulong (z : Z) : Z := z mod 4294967296.

Definition is_u8 (z : Z) : Prop := 0 <= z < 256.

(** ** Arrays and C strings *)

(** [a.[i]]: the cell [i] of the array [a]. *)
Definition rd (a : list Z) (i : nat) : Z := default 0 (a !! i).
Notation "a .[ i ]" := (rd a i) (at level 1, left associativity, format "a .[ i ]").

(** [buf[p++] = v] on an array [buf] with its write position [p]. *)
Definition push (a : list Z * nat) (v : Z) : list Z * nat :=
  (<[a.2 := v]> (a.1), S a.2).

(** The cells written so far. *)
Definition written (a : list Z * nat) : list Z := take a.2 a.1.

(** [strlen]: the characters up to the first NUL. *)
Fixpoint strlen (s : list Z) : nat :=
  match s with
  | [] => O
  | c :: s' => if c =? 0 then O else S (strlen s')
  end.

(** The characters of a string literal. *)
Fixpoint cstr (s : string) : list Z :=
  match s with
  | EmptyString => []
  | String a s' => Z.of_N (Ascii.N_of_ascii a) :: cstr s'
  end.

(** A C string proper: no NUL inside, every character a byte. *)
Definition c_string (s : list Z) : Prop := Forall (fun c => 1 <= c < 256) s.

(** Printable ASCII. *)
Definition printable (s : list Z) : Prop := Forall (fun c => 32 <= c <= 126) s.

(** ** writeNtagUri, first part: the NDEF record and its TLV *)

(** [for (size_t i = 0; i < n; ++i) dst[p++] = cast(src[i]);]
    with [n] the iterations left. *)
Fixpoint copy_loop (cast : Z -> Z) (n : nat) (src : list Z) (i : nat)
    (dst : list Z * nat) : list Z * nat :=
  match n with
  | O => dst
  | S n' => copy_loop cast n' src (S i) (push dst (cast src.[i]))
  end.

(** Lines 156-165: the short-record URI in [ndef[512]]; [ndef0] is what
    the array holds before it is written. *)
Definition compose_ndef (ndef0 : list Z) (url : list Z) (urlLen : nat)
    : list Z * nat :=
  let a := (ndef0, O) in
  let a := push a 0xD1 in
  let a := push a 0x01 in
  let a := push a (to_u8 (1 + Z.of_nat urlLen)) in
  let a := push a 0x55 in
  let a := push a 0x00 in
  copy_loop to_u8 urlLen url 0 a.

(** Lines 167-180: the TLV in [tlv[520]]; [None] is the branch
    "NDEF too large (unexpected)". *)
Definition compose_tlv (tlv0 : list Z) (ndef : list Z * nat)
    : option (list Z * nat) :=
  let np := ndef.2 in
  let t := (tlv0, O) in
  let t := push t 0x03 in
  if (np <=? 0xFF)%nat then
    let t := push t (to_u8 (Z.of_nat np)) in
    let t := copy_loop id np ndef.1 0 t in
    Some (push t 0xFE)
  else None.

(** The guard of lines 149-154 with the record it lets through:
    [None] is "URL too long". *)
Definition encode (ndef0 : list Z) (url : list Z) : option (list Z * nat) :=
  let urlLen := strlen url in
  if (200 <? urlLen)%nat then None
  else Some (compose_ndef ndef0 url urlLen).

(** The stack arrays before they are written.  C leaves them
    indeterminate; the sketch reads no cell it has not written (see
    [compose_ndef_spec] and [compose_tlv_spec], which hold for any
    initial contents), so zeros stand for them. *)
Definition ndef_array : list Z := replicate 512 0.
Definition tlv_array : list Z := replicate 520 0.

(** ** The collaborators *)

(** An entry of the rotation ([struct QRInfo]). *)
Record QRInfo := { name : string; url : string }.

(** What the sketch asks of the PN532 driver.  [ntag2xx_ReadPage]
    answers [Some buf] when it returns true, [buf] being the four bytes
    it has stored in the caller's buffer. *)
Class PagedTagTransport (D : Type) := {
  ntag2xx_ReadPage : D -> Z -> D * option (list Z);
  ntag2xx_WritePage : D -> Z -> list Z -> D * bool;
  readPassiveTargetID : D -> D * bool;
  ReadPage_buffer : forall d p d' buf,
    ntag2xx_ReadPage d p = (d', Some buf) ->
    length buf = 4%nat /\ Forall is_u8 buf
}.

(** A call that leaves the sketch. *)
Inductive event :=
  | EvReadPage (page : Z) (ok : bool)
  | EvWritePage (page : Z) (data : list Z) (ok : bool)
  | EvProbe (found : bool)
  | EvRender (qr : QRInfo).

Definition is_render (e : event) : bool :=
  match e with EvRender _ => true | _ => false end.

(** The state outside the sketch: the driver and the calls made so far,
    oldest first. *)
Record world (D : Type) := World { dev : D; trace : list event }.
Arguments World {D} _ _.
Arguments dev {D} _.
Arguments trace {D} _.

(** Computations of the sketch that talk to the collaborators. *)
Definition M (D A : Type) : Type := world D -> A * world D.

Definition ret {D A} (a : A) : M D A := fun w => (a, w).
Definition bind {D A B} (c : M D A) (k : A -> M D B) : M D B :=
  fun w => let (a, w') := c w in k a w'.

Notation "'do' x <- c ; k" := (bind c (fun x => k))
  (at level 10, x name, c at level 100, k at level 200).

Section Sketch.
Context {D : Type} `{!PagedTagTransport D}.

Definition ReadPage (page : Z) : M D (option (list Z)) := fun w =>
  let (d, r) := ntag2xx_ReadPage (dev w) page in
  (r, World d (trace w ++ [EvReadPage page (match r with Some _ => true | None => false end)])).

Definition WritePage (page : Z) (data : list Z) : M D bool := fun w =>
  let (d, ok) := ntag2xx_WritePage (dev w) page data in
  (ok, World d (trace w ++ [EvWritePage page data ok])).

Definition Probe : M D bool := fun w =>
  let (d, found) := readPassiveTargetID (dev w) in
  (found, World d (trace w ++ [EvProbe found])).

(** [displayQRCodeWithLabel]: the render collaborator, opaque here. *)
Definition displayQRCodeWithLabel (qrInfo : QRInfo) : M D unit := fun w =>
  (tt, World (dev w) (trace w ++ [EvRender qrInfo])).

(** *** writeNtagUri, second part: the pages *)

(** Lines 194-197, with [n] the iterations left. *)
Fixpoint fill_page (n : nat) (i : nat) (tlv : list Z) (tp : nat)
    (pageBuf : list Z) (offset : nat) : list Z * nat :=
  match n with
  | O => (pageBuf, offset)
  | S n' =>
      if (offset <? tp)%nat
      then fill_page n' (S i) tlv tp (<[i := tlv.[offset]]> pageBuf) (S offset)
      else fill_page n' (S i) tlv tp (<[i := 0x00]> pageBuf) offset
  end.

(** Lines 192-213.  [fuel] bounds the iterations of the [while]; [None]
    is the bound reached with bytes left, which [tp] iterations never
    do ([write_loop_spec]). *)
Fixpoint write_loop (fuel : nat) (tlv : list Z) (tp : nat) (offset : nat)
    (pageBuf : list Z) (writePage : Z) : M D (option bool) :=
  if (offset <? tp)%nat then
    match fuel with
    | O => ret None
    | S fuel' =>
        let (pageBuf, offset) := fill_page 4 0 tlv tp pageBuf offset in
        do ok <- WritePage writePage pageBuf;
        if negb ok then ret (Some false)
        else write_loop fuel' tlv tp offset pageBuf (to_u16 (writePage + 1))
    end
  else ret (Some true).

Definition writeNtagUri (url : list Z) : M D (option bool) :=
  match encode ndef_array url with
  | None => ret (Some false)
  | Some ndef =>
      match compose_tlv tlv_array ndef with
      | None => ret (Some false)
      | Some (tlv, tp) =>
          let writePage := 4 in
          do r <- ReadPage writePage;
          match r with
          | None => ret (Some false)
          | Some pageBuf => write_loop tp tlv tp 0 pageBuf writePage
          end
      end
  end.

(** *** readNtagNdefUri *)

Definition MAX_NDEF : nat := 480.

(** The locals of [readNtagNdefUri] that the scan updates. *)
Record scan := Scan {
  seenTlvStart : bool;
  seenLen : bool;
  ndefLen : Z;
  collected : nat;
  ndefBytes : list Z;
  ndefIndex : nat
}.

(** How the body of the inner [for] leaves: on to the next byte
    ([continue] or the end of the body), or [goto parse_done]. *)
Inductive flow := Next | ParseDone.

(** Lines 241-272: one byte [b] of a page. *)
Definition scan_byte (b : Z) (s : scan) : scan * flow :=
  if negb (seenTlvStart s) then
    if b =? 0x00 then (s, Next)
    else if b =? 0x03 then
      (Scan true (seenLen s) (ndefLen s) (collected s) (ndefBytes s) (ndefIndex s),
       Next)
    else (s, Next)
  else if seenTlvStart s && negb (seenLen s) then
    let s := Scan (seenTlvStart s) true b (collected s) (ndefBytes s) (ndefIndex s) in
    if ndefLen s =? 0 then (s, ParseDone) else (s, Next)
  else if seenLen s then
    if (Z.of_nat (collected s) <? ndefLen s) && (ndefIndex s <? MAX_NDEF)%nat then
      let s := Scan (seenTlvStart s) (seenLen s) (ndefLen s) (S (collected s))
                 (<[ndefIndex s := b]> (ndefBytes s)) (S (ndefIndex s)) in
      if ndefLen s <=? Z.of_nat (collected s) then (s, ParseDone) else (s, Next)
    else (s, Next)
  else (s, Next).

(** Lines 240-273: [for (int i = 0; i < 4; ++i)], [n] iterations left. *)
Fixpoint scan_page (n : nat) (i : nat) (pageBuf : list Z) (s : scan)
    : scan * flow :=
  match n with
  | O => (s, Next)
  | S n' =>
      let b := pageBuf.[i] in
      match scan_byte b s with
      | (s, ParseDone) => (s, ParseDone)
      | (s, Next) => scan_page n' (S i) pageBuf s
      end
  end.

(** Lines 234-275: [for (int iter = 0; iter < 128; ++iter)], [n]
    iterations left; a failed read is the [break]. *)
Fixpoint read_loop (n : nat) (page : Z) (s : scan) : M D scan :=
  match n with
  | O => ret s
  | S n' =>
      do r <- ReadPage page;
      match r with
      | None => ret s
      | Some pageBuf =>
          match scan_page 4 0 pageBuf s with
          | (s, ParseDone) => ret s
          | (s, Next) => read_loop n' (to_u16 (page + 1)) s
          end
      end
  end.

(** The [return] statement the reader leaves by: line 280
    ("No NDEF TLV found or empty"), line 286 (fewer than five bytes),
    or line 315 with the URI. *)
Inductive read_exit :=
  | NoTlv
  | ShortRecord
  | Uri (uri : list Z).

(** The [String] the caller gets. *)
Definition returned (r : read_exit) : list Z :=
  match r with
  | NoTlv | ShortRecord => []
  | Uri uri => uri
  end.

(** Lines 294-296: [for (; idx < ndefIndex; ++idx) uri += (char)ndefBytes[idx];] *)
Fixpoint collect_uri (n : nat) (idx : nat) (ndefBytes : list Z) (uri : list Z)
    : list Z :=
  match n with
  | O => uri
  | S n' => collect_uri n' (S idx) ndefBytes (uri ++ [ndefBytes.[idx]])
  end.

(** The [switch] of lines 303-309. *)
Definition pfx_of (idCode : Z) : list Z :=
  if idCode =? 0x01 then cstr "http://www."
  else if idCode =? 0x02 then cstr "https://www."
  else if idCode =? 0x03 then cstr "http://"
  else if idCode =? 0x04 then cstr "https://"
  else cstr "".

(** Lines 283-315: the record in [ndefBytes[0..ndefIndex)] to a URI. *)
Definition decode (ndefBytes : list Z) (ndefIndex : nat) : read_exit :=
  let idx := O in
  if (ndefIndex <? 5)%nat then ShortRecord
  else
    let header := ndefBytes.[idx] in
    let typeLen := ndefBytes.[idx + 1] in
    let payloadLen := ndefBytes.[idx + 2] in
    let type := ndefBytes.[idx + 3] in
    let idCode := ndefBytes.[idx + 4] in
    let idx := (idx + 5)%nat in
    let uri := collect_uri (ndefIndex - idx) idx ndefBytes [] in
    if negb (idCode =? 0x00) then
      let pfx := pfx_of idCode in
      if (0 <? strlen pfx)%nat then Uri (pfx ++ uri) else Uri uri
    else Uri uri.

(** Lines 277-281, then the parse. *)
Definition parse_done (s : scan) : read_exit :=
  if negb (seenTlvStart s) || negb (seenLen s) || (collected s =? 0)%nat
  then NoTlv
  else decode (ndefBytes s) (ndefIndex s).

Definition scan_init : scan := Scan false false 0 O (replicate MAX_NDEF 0) O.

Definition readNtagNdefUri : M D read_exit :=
  let page := 4 in
  do s <- read_loop 128 page scan_init;
  ret (parse_done s).

(** *** loop *)

Definition qrList : list QRInfo :=
  [ {| name := "ESPN Homepage"; url := "https://www.espn.com" |};
    {| name := "Purdue University"; url := "https://www.purdue.edu" |};
    {| name := "GitHub"; url := "https://www.github.com" |} ].

Definition numQRs : Z := Z.of_nat (length qrList).

Definition updateInterval : Z := 60000.

(** The global variables [loop] updates. *)
Record globals := Globals { currentQR : Z; lastUpdate : Z }.

Definition globals_init : globals := Globals 0 0.

(** [qrList[i]]; outside the array C gives no meaning to it. *)
Definition qrList_at (i : Z) : option QRInfo :=
  if 0 <=? i then qrList !! Z.to_nat i else None.

(** One call of [loop], [now] being what [millis()] answers.  [None]:
    the call has no defined outcome ([currentQR] outside [qrList]). *)
Definition loop (now : Z) (g : globals) : M D (option globals) :=
  if updateInterval <=? to_ulong (now - lastUpdate g) then
    let lastUpdate' := now in
    match qrList_at (currentQR g) with
    | None => ret None
    | Some qr =>
        let next := Globals (Z.rem (currentQR g + 1) numQRs) lastUpdate' in
        do _ <- displayQRCodeWithLabel qr;
        do found <- Probe;
        if found then
          do r <- writeNtagUri (cstr (url qr));
          match r with
          | None => ret None
          | Some _ => ret (Some next)
          end
        else ret (Some next)
    end
  else ret (Some g).

End Sketch.

(** ** A tag held in memory

    A transport to run the sketch against: the bytes of the tag from
    page 0 on, whether the tag is in the field, and the pages that refuse
    a write.  A page outside the memory cannot be read or written. *)
Record MemTag := { mem : list Z; present : bool; dead_pages : list Z }.

Definition in_tag (t : MemTag) (page : Z) : bool :=
  (0 <=? page) && (Z.to_nat (4 * page) + 4 <=? length (mem t))%nat.

Definition mem_read (t : MemTag) (page : Z) : MemTag * option (list Z) :=
  if in_tag t page
  then (t, Some (to_u8 <$> take 4 (drop (Z.to_nat (4 * page)) (mem t))))
  else (t, None).

Definition mem_write (t : MemTag) (page : Z) (data : list Z) : MemTag * bool :=
  if in_tag t page && negb (bool_decide (page ∈ dead_pages t))
  then
    let i := Z.to_nat (4 * page) in
    ({| mem := take i (mem t) ++ take 4 (data ++ replicate 4 0) ++ drop (i + 4) (mem t);
        present := present t;
        dead_pages := dead_pages t |}, true)
  else (t, false).

Definition mem_probe (t : MemTag) : MemTag * bool := (t, present t).

Lemma mem_read_buffer t p t' buf :
  mem_read t p = (t', Some buf) -> length buf = 4%nat /\ Forall is_u8 buf.
Proof.
  unfold mem_read, in_tag.
  destruct (0 <=? p) eqn:Hp; simpl; [|discriminate].
  destruct (Nat.leb_spec (Z.to_nat (4 * p) + 4) (length (mem t))) as [Hl|Hl];
    [|discriminate].
  intros [= <- <-]. split.
  - rewrite length_fmap, length_take, length_drop. lia.
  - apply Forall_fmap, Forall_true. intros z. unfold is_u8, to_u8. simpl.
    apply Z.mod_pos_bound. lia.
Qed.

#[export] Instance MemTag_transport : PagedTagTransport MemTag := {|
  ntag2xx_ReadPage := mem_read;
  ntag2xx_WritePage := mem_write;
  readPassiveTargetID := mem_probe;
  ReadPage_buffer := mem_read_buffer
|}.

(** A blank tag of [pages] pages in the field. *)
Definition blank_tag (pages : nat) : world MemTag :=
  World {| mem := replicate (4 * pages) 0; present := true; dead_pages := [] |} [].

(** A tag of 16 pages whose page 5 refuses writes. *)
Definition worn_tag : world MemTag :=
  World {| mem := replicate 64 0; present := true; dead_pages := [5] |} [].

(** A tag of 16 pages out of the field. *)
Definition absent_tag : world MemTag :=
  World {| mem := replicate 64 0; present := false; dead_pages := [] |} [].

(** A tag whose page 4 is a page of NULL TLVs, followed by the TLV of
    the URL "a". *)
Definition null_page_tag : world MemTag :=
  World {| mem := replicate 16 0
                  ++ [0x00; 0x00; 0x00; 0x00;
                      0x03; 0x06; 0xD1; 0x01;
                      0x02; 0x55; 0x00; 0x61;
                      0xFE; 0x00; 0x00; 0x00]
                  ++ replicate 32 0;
           present := true; dead_pages := [] |} [].

(** A tag with a TLV of six bytes whose record has the identifier code
    0x04 and a payload length, 0x63, that does not match. *)
Definition https_tag : world MemTag :=
  World {| mem := replicate 16 0
                  ++ [0x03; 0x06; 0xD1; 0x01;
                      0x63; 0x55; 0x04; 0x61;
                      0xFE; 0x00; 0x00; 0x00]
                  ++ replicate 36 0;
           present := true; dead_pages := [] |} [].

(** A trace in which a probe for a tag comes before a render. *)
Definition probe_then_render (evs : list event) : Prop :=
  exists l1 found l2 qr l3,
    evs = l1 ++ EvProbe found :: l2 ++ EvRender qr :: l3.

(** ** The wire format and the page layout, in the specification's words *)

(** The TLV of a URL:
    [0x03][len][0xD1][0x01][payload_len][0x55][id_code][url bytes][0xFE]
    with [len = 5 + urlLen], [payload_len = 1 + urlLen], [id_code = 0]. *)
Definition tlv_bytes (url : list Z) : list Z :=
  let urlLen := Z.of_nat (strlen url) in
  [0x03; 5 + urlLen; 0xD1; 0x01; 1 + urlLen; 0x55; 0x00]
  ++ (to_u8 <$> take (strlen url) url) ++ [0xFE].

(** The first [n] bytes of [l], zeros standing for the missing ones. *)
Fixpoint pad (n : nat) (l : list Z) : list Z :=
  match n with
  | O => []
  | S n' =>
      match l with
      | [] => 0 :: pad n' []
      | x :: l' => x :: pad n' l'
      end
  end.

(** [bytes] cut into [n] pages of four, the last one zero-padded. *)
Fixpoint pages_of (n : nat) (bytes : list Z) : list (list Z) :=
  match n with
  | O => []
  | S n' => pad 4 bytes :: pages_of n' (drop 4 bytes)
  end.

(** [ceil (T / 4)] *)
Definition page_count (T : nat) : nat := ((T + 3) / 4)%nat.

(** Successful writes of [pages] to consecutive indices from [page]. *)
Fixpoint write_events (page : Z) (pages : list (list Z)) : list event :=
  match pages with
  | [] => []
  | pg :: rest => EvWritePage page pg true :: write_events (page + 1) rest
  end.

(** Reads of consecutive pages from [page], with their outcomes. *)
Fixpoint read_events (page : Z) (oks : list bool) : list event :=
  match oks with
  | [] => []
  | ok :: rest => EvReadPage page ok :: read_events (page + 1) rest
  end.

(** ** The bytes a tag offers, and what the specification makes of them *)

(** The pages a transport hands out to [n] reads in a row, from [page]
    up to the first read that fails. *)
Fixpoint supply {D : Type} `{!PagedTagTransport D} (n : nat) (page : Z) (d : D)
    : list (list Z) :=
  match n with
  | O => []
  | S n' =>
      match ntag2xx_ReadPage d page with
      | (d', Some buf) => buf :: supply n' (to_u16 (page + 1)) d'
      | (_, None) => []
      end
  end.

(** The bytes within the scan cap of 128 pages from page 4. *)
Definition tag_stream {D : Type} `{!PagedTagTransport D} (w : world D) : list Z :=
  concat (supply 128 4 (dev w)).

(** The scan of lines 241-272 over a run of bytes. *)
Fixpoint feed (bytes : list Z) (s : scan) : scan * flow :=
  match bytes with
  | [] => (s, Next)
  | b :: rest =>
      match scan_byte b s with
      | (s, ParseDone) => (s, ParseDone)
      | (s, Next) => feed rest s
      end
  end.

(** What follows the first 0x03 byte, if there is one. *)
Fixpoint after_start (stream : list Z) : option (list Z) :=
  match stream with
  | [] => None
  | b :: rest => if b =? 0x03 then Some rest else after_start rest
  end.

(** A record to a URI: nothing for no bytes, a short record below five,
    else the prefix of the identifier code and the bytes after the
    fifth. *)
Definition record_exit (rec : list Z) : read_exit :=
  match rec with
  | [] => NoTlv
  | _ => if (length rec <? 5)%nat then ShortRecord
         else Uri (pfx_of rec.[4] ++ drop 5 rec)
  end.

(** The bytes after the tag byte: a length, then that many bytes of
    record, or as many as there are. *)
Definition tlv_exit (after : list Z) : read_exit :=
  match after with
  | [] => NoTlv
  | len :: rest => record_exit (take (Z.to_nat len) rest)
  end.

Definition read_result (stream : list Z) : read_exit :=
  match after_start stream with
  | None => NoTlv
  | Some after => tlv_exit after
  end.

(** ** The rest of [sketch_nov2a.ino] *)

Section Sketch_rest.
Context {D : Type} `{!PagedTagTransport D}.

(** Lines 319-325: [while (nfc.readPassiveTargetID(...)) delay(200);].
    [fuel] bounds the polls; [None] is the bound reached with every poll
    having found the tag. *)
Fixpoint waitForTagRemoval (fuel : nat) : M D (option unit) :=
  match fuel with
  | O => ret None
  | S fuel' =>
      do found <- Probe;
      if found then waitForTagRemoval fuel' else ret (Some tt)
  end.

(** The Arduino core calls [loop] over and over; [nows] are the answers
    of [millis()], one for each call. *)
Fixpoint run_loop (nows : list Z) (g : globals) : M D (option globals) :=
  match nows with
  | [] => ret (Some g)
  | now :: nows' =>
      do r <- loop now g;
      match r with
      | None => ret None
      | Some g' => run_loop nows' g'
      end
  end.

End Sketch_rest.

(** ** Words for the further properties *)

(** A page call that stays in the user memory of a tag of 56 pages or
    more: a read of page 4, or a write of four bytes to one of the pages
    4 to 55. *)
Definition page_call_ok (e : event) : Prop :=
  match e with
  | EvReadPage page _ => page = 4
  | EvWritePage page data _ => 4 <= page <= 55 /\ length data = 4%nat
  | _ => False
  end.

(** The entries rendered, in order. *)
Definition renders (evs : list event) : list QRInfo :=
  omap (fun e => match e with EvRender qr => Some qr | _ => None end) evs.

(** [k] entries of [qrList] in turn, from index [i], going round. *)
Fixpoint rotation (i : Z) (k : nat) : list QRInfo :=
  match k with
  | O => []
  | S k' =>
      match qrList_at i with
      | Some qr => qr :: rotation ((i + 1) mod numQRs) k'
      | None => []
      end
  end.

(** The calls among those at the times [nows] on which the interval has
    elapsed, [lastUpdate] being the time of the last tick before them: the
    test of line 107 and the assignment of line 108, and nothing else of
    [loop]. *)
Fixpoint ticks (nows : list Z) (lastUpdate : Z) : nat :=
  match nows with
  | [] => O
  | now :: nows' =>
      if updateInterval <=? to_ulong (now - lastUpdate)
      then S (ticks nows' now)
      else ticks nows' lastUpdate
  end.

(** A tag in the field whose memory from page 4 on is [bytes]. *)
Definition tag_of_bytes (bytes : list Z) : world MemTag :=
  World {| mem := replicate 16 0 ++ bytes; present := true; dead_pages := [] |} [].

(** ** displayQRCodeWithLabel, call by call

    Lines 72-99.  The panel and the QR code library are not part of the
    sketch: [display_width] is what [display.width()] answers and
    [qrcode_initText version text] the code the library makes (with
    [ECC_LOW]); a [QRCode] is its [size] and what [qrcode_getModule]
    answers.  [int] is taken to have 32 bits, as on the ESP32. *)

Definition to_i16 (z : Z) : Z := (z + 32768) mod 65536 - 32768.

Record QRCode := { qrcode_size : Z; qrcode_getModule : Z -> Z -> bool }.

(** A call on [display]; the colour of text and squares is always
    [EPD_BLACK]. *)
Inductive draw :=
  | EpdClearBuffer
  | EpdSetTextSize (s : Z)
  | EpdSetTextColor
  | EpdSetCursor (x y : Z)
  | EpdPrint (text : string)
  | EpdFillRect (x y w h : Z)
  | EpdDisplay.

(** Lines 91-95: [for (uint8_t qx = 0; qx < qrcode.size; qx++)], [n]
    iterations left. *)
Fixpoint draw_row (n : nat) (qx qy : Z) (x y scale : Z) (qrcode : QRCode)
    : list draw :=
  match n with
  | O => []
  | S n' =>
      (if qrcode_getModule qrcode qx qy
       then [EpdFillRect (to_i16 (x + qx * scale)) (to_i16 (y + qy * scale))
               (to_i16 scale) (to_i16 scale)]
       else [])
      ++ draw_row n' (to_u8 (qx + 1)) qy x y scale qrcode
  end.

(** Lines 90-96: [for (uint8_t qy = 0; qy < qrcode.size; qy++)]. *)
Fixpoint draw_rows (n : nat) (qy : Z) (x y scale : Z) (qrcode : QRCode)
    : list draw :=
  match n with
  | O => []
  | S n' =>
      draw_row (Z.to_nat (qrcode_size qrcode)) 0 qy x y scale qrcode
      ++ draw_rows n' (to_u8 (qy + 1)) x y scale qrcode
  end.

Section Display.
Variable display_width : Z.
Variable qrcode_initText : Z -> string -> QRCode.

(** The calls [displayQRCodeWithLabel] makes on the panel. *)
Definition displayQRCodeWithLabel_calls (qrInfo : QRInfo) : list draw :=
  let version := 3 in
  let qrcode := qrcode_initText version (url qrInfo) in
  let scale := 3 in
  let qrPixelSize := qrcode_size qrcode * scale in
  let x := to_u16 (Z.quot (display_width - qrPixelSize) 2) in
  let y := 20 in
  [EpdClearBuffer; EpdSetTextSize 1; EpdSetTextColor; EpdSetCursor 10 0;
   EpdPrint (name qrInfo)]
  ++ draw_rows (Z.to_nat (qrcode_size qrcode)) 0 x y scale qrcode
  ++ [EpdDisplay].
End Display.

(** A code of 29 by 29 modules, the size of version 3, with the dark
    modules on the diagonal. *)
Definition diagonal_code (version : Z) (text : string) : QRCode :=
  {| qrcode_size := 4 * version + 17; qrcode_getModule := fun x y => x =? y |}.



(** ** printKeyHex

    Lines 328-334.  [Serial.print(b, HEX)] belongs to the Arduino core:
    [print_HEX b] are the characters it prints for the byte [b].  The
    value of [printKeyHex] is what goes to [Serial]. *)
Section PrintKey.
Variable print_HEX : Z -> list Z.

(** [for (int i = 0; i < 6; i++)], [n] iterations left. *)
Fixpoint printKeyHex_loop (n : nat) (i : nat) (key : list Z) : list Z :=
  match n with
  | O => []
  | S n' =>
      (if key.[i] <? 0x10 then cstr "0" else [])
      ++ print_HEX key.[i]
      ++ (if (i <? 5)%nat then cstr ":" else [])
      ++ printKeyHex_loop n' (S i) key
  end.

Definition printKeyHex (key : list Z) : list Z := printKeyHex_loop 6 0 key.
End PrintKey.

(** Hexadecimal as the core prints it: upper case, no leading zero. *)
Definition hex_digit (d : Z) : Z := if d <? 10 then d + 48 else d + 55.
Definition core_print_HEX (b : Z) : list Z :=
  if b <? 16 then [hex_digit b] else [hex_digit (b / 16); hex_digit (b mod 16)].

(** ** The earlier sketch, [src/unnamed/part_000]

    The same list of entries, rendered one after the other with a
    [delay(60000)] in between; no NFC. *)
Module Rotator.
Section Rotator.
Context {D : Type} `{!PagedTagTransport D}.

(** Lines 75-80; the state is [currentQR], and [None] an index outside
    [qrList]. *)
Definition loop (currentQR : Z) : M D (option Z) :=
  match qrList_at currentQR with
  | None => ret None
  | Some qr =>
      do _ <- displayQRCodeWithLabel qr;
      ret (Some (Z.rem (currentQR + 1) numQRs))
  end.

(** [calls] calls of [loop] in a row. *)
Fixpoint run (calls : nat) (currentQR : Z) : M D (option Z) :=
  match calls with
  | O => ret (Some currentQR)
  | S calls' =>
      do r <- loop currentQR;
      match r with
      | None => ret None
      | Some currentQR' => run calls' currentQR'
      end
  end.
End Rotator.
End Rotator.

(** ** The serial-driven sketch, [src/sketch_nov2a/sketch_nov2a.ino]

    Its [writeNtagUri] is the one above with more output on [Serial];
    its [displayQRCodeWithLabel] takes the label and the URL apart. *)
Module SerialSketch.
Section SerialSketch.
Context {D : Type} `{!PagedTagTransport D}.

(** Lines 287-366.  [input] is [None] when [Serial.available()] is 0,
    else the line read with [readStringUntil] after [trim]; the state is
    [currentURL]. *)
Definition loop (input : option string) (currentURL : string)
    : M D (option string) :=
  match input with
  | None => ret (Some currentURL)
  | Some incoming =>
      if (0 <? String.length incoming)%nat then
        let currentURL := incoming in
        do _ <- displayQRCodeWithLabel
                  {| name := "Custom URL"; url := currentURL |};
        do tagFound <- Probe;
        if tagFound then
          do r <- writeNtagUri (cstr currentURL);
          match r with
          | None => ret None
          | Some _ => ret (Some currentURL)
          end
        else ret (Some currentURL)
      else ret (Some currentURL)
  end.
End SerialSketch.
End SerialSketch.


(** What the scan keeps true of its locals. *)
Definition scan_inv (s : scan) : Prop :=
  collected s = ndefIndex s /\
  (ndefIndex s <= 255)%nat /\
  length (ndefBytes s) = MAX_NDEF /\
  (seenLen s = true -> Z.of_nat (collected s) <= ndefLen s <= 255) /\
  (seenLen s = false -> collected s = O).

(** * Properties *)

(** Closes a decidable goal about concrete data by evaluation. *)
Ltac by_evaluation :=
  unfold c_string, printable; apply (bool_decide_unpack _); vm_compute; exact I.

(** ** Machine integers and C strings *)

Lemma to_u8_small z : is_u8 z -> to_u8 z = z.
Proof. unfold is_u8, to_u8. intros. apply Z.mod_small. lia. Qed.

Lemma strlen_le s : (strlen s <= length s)%nat.
Proof. induction s as [|c s IH]; simpl; [lia|]. destruct (c =? 0); lia. Qed.

Lemma c_string_strlen s : c_string s -> strlen s = length s.
Proof.
  induction 1 as [|c s Hc _ IH]; simpl; [done|].
  destruct (Z.eqb_spec c 0); [lia|]. by rewrite IH.
Qed.

Lemma c_string_u8 s : c_string s -> to_u8 <$> s = s.
Proof.
  induction 1 as [|c s Hc _ IH]; csimpl; [done|].
  rewrite IH, to_u8_small; [done|]. unfold is_u8. lia.
Qed.

Lemma printable_c_string s : printable s -> c_string s.
Proof. intros H. eapply Forall_impl; [exact H|]. intros c Hc. simpl in Hc. lia. Qed.

Lemma rd_lookup (a : list Z) i x : a !! i = Some x -> a.[i] = x.
Proof. unfold rd. by intros ->. Qed.

(** ** Arrays with a write position *)

Lemma push_snd a v : (push a v).2 = S a.2.
Proof. done. Qed.

Lemma push_length a v : length (push a v).1 = length a.1.
Proof. apply length_insert. Qed.

Lemma written_push a v :
  (a.2 < length a.1)%nat -> written (push a v) = written a ++ [v].
Proof.
  intros Hlt. unfold written, push. simpl.
  rewrite (take_S_r _ _ v) by by apply list_lookup_insert_eq.
  by rewrite take_insert_ge.
Qed.

(** The copy loops write [n] cells after the ones already written and
    stay inside both arrays. *)
Lemma copy_loop_spec cast n : forall src i dst,
  (i + n <= length src)%nat ->
  (dst.2 + n <= length dst.1)%nat ->
  (copy_loop cast n src i dst).2 = (dst.2 + n)%nat /\
  length (copy_loop cast n src i dst).1 = length dst.1 /\
  written (copy_loop cast n src i dst)
    = written dst ++ (cast <$> take n (drop i src)).
Proof.
  induction n as [|n IH]; intros src i dst Hsrc Hdst; cbn [copy_loop].
  - rewrite take_0, fmap_nil, app_nil_r. split; [lia|done].
  - destruct (IH src (S i) (push dst (cast src.[i]))) as (H2 & Hlen & Hw).
    { lia. }
    { rewrite push_length, push_snd. lia. }
    rewrite H2, Hlen, Hw, push_snd, push_length, written_push by lia.
    split; [lia|]. split; [done|].
    destruct (lookup_lt_is_Some_2 src i) as [x Hx]; [lia|].
    rewrite (rd_lookup _ _ _ Hx).
    rewrite <- (take_drop_middle _ _ _ Hx) at 2.
    rewrite drop_app_length' by (rewrite length_take; lia).
    simpl. by rewrite <- app_assoc.
Qed.

Lemma compose_ndef_spec ndef0 url n :
  (n <= length url)%nat ->
  (5 + n <= length ndef0)%nat ->
  (compose_ndef ndef0 url n).2 = (5 + n)%nat /\
  length (compose_ndef ndef0 url n).1 = length ndef0 /\
  written (compose_ndef ndef0 url n)
    = [0xD1; 0x01; to_u8 (1 + Z.of_nat n); 0x55; 0x00] ++ (to_u8 <$> take n url).
Proof.
  intros Hn Hcap. unfold compose_ndef.
  set (a := push (push (push (push (push (ndef0, O) _) _) _) _) _).
  assert (Ha2 : a.2 = 5%nat) by done.
  assert (Hal : length a.1 = length ndef0).
  { unfold a. by rewrite !push_length. }
  assert (Haw : written a = [0xD1; 0x01; to_u8 (1 + Z.of_nat n); 0x55; 0x00]).
  { unfold a. rewrite !written_push; rewrite ?push_length, ?push_snd; simpl; try lia.
    done. }
  destruct (copy_loop_spec to_u8 n url 0 a) as (H2 & Hlen & Hw); [lia|lia|].
  rewrite H2, Hlen, Hw, Ha2, Hal, Haw. by rewrite drop_0.
Qed.

(** What [compose_ndef] leaves in [ndef], whatever the array held. *)
Lemma compose_ndef_written ndef0 url :
  length ndef0 = 512%nat -> c_string url -> (length url <= 200)%nat ->
  written (compose_ndef ndef0 url (strlen url))
    = [0xD1; 0x01; 1 + Z.of_nat (length url); 0x55; 0x00] ++ url.
Proof.
  intros Hcap Hurl Hlen. rewrite (c_string_strlen _ Hurl).
  destruct (compose_ndef_spec ndef0 url (length url)) as (_ & _ & ->); [lia..|].
  rewrite firstn_all, (c_string_u8 _ Hurl), to_u8_small; [done|].
  unfold is_u8. lia.
Qed.

Lemma compose_tlv_spec tlv0 ndef :
  (ndef.2 <= 255)%nat ->
  (ndef.2 <= length ndef.1)%nat ->
  (ndef.2 + 3 <= length tlv0)%nat ->
  exists t, compose_tlv tlv0 ndef = Some t /\
    t.2 = (ndef.2 + 3)%nat /\
    length t.1 = length tlv0 /\
    written t = [0x03; Z.of_nat ndef.2] ++ written ndef ++ [0xFE].
Proof.
  intros Hnp Hsrc Hcap. unfold compose_tlv.
  destruct (Nat.leb_spec ndef.2 255) as [_|?]; [|lia].
  set (t := push (push (tlv0, O) _) _).
  assert (Ht2 : t.2 = 2%nat) by done.
  assert (Htl : length t.1 = length tlv0).
  { unfold t. by rewrite !push_length. }
  assert (Htw : written t = [0x03; Z.of_nat ndef.2]).
  { unfold t. rewrite !written_push; rewrite ?push_length, ?push_snd; simpl; try lia.
    rewrite to_u8_small; [done|]. unfold is_u8. lia. }
  destruct (copy_loop_spec id ndef.2 ndef.1 0 t) as (H2 & Hlen & Hw); [lia|lia|].
  eexists. split; [done|].
  rewrite push_snd, push_length, written_push by lia.
  rewrite H2, Hlen, Hw, Ht2, Htl, Htw, drop_0, list_fmap_id.
  split; [lia|]. split; [done|]. unfold written. by rewrite <- app_assoc.
Qed.

(** ** The record and its TLV *)

(** C1: for a URL of at most 200 bytes, encoding and then wrapping
    gives [0x03][len][0xD1][0x01][1+urlLen][0x55][0x00][url][0xFE] with
    [len = 5 + urlLen]: the identifier code is 0x00 and the URL is stored
    whole, without any prefix compression. *)
Theorem tlv_wire_format (ndef0 tlv0 url : list Z) :
  length ndef0 = 512%nat ->
  length tlv0 = 520%nat ->
  c_string url ->
  (length url <= 200)%nat ->
  written <$> (encode ndef0 url ≫= compose_tlv tlv0)
    = Some ([0x03; 5 + Z.of_nat (length url);
             0xD1; 0x01; 1 + Z.of_nat (length url); 0x55; 0x00]
            ++ url ++ [0xFE]).
Proof.
  intros Hndef Htlv Hurl Hlen. unfold encode.
  pose proof (c_string_strlen _ Hurl) as Hs.
  destruct (Nat.ltb_spec 200 (strlen url)) as [?|_]; [lia|]. simpl.
  destruct (compose_ndef_spec ndef0 url (strlen url)) as (Hnp & Hnl & _); [lia..|].
  destruct (compose_tlv_spec tlv0 (compose_ndef ndef0 url (strlen url)))
    as (t & -> & _ & _ & Hw); [lia..|].
  simpl. rewrite Hw, Hnp, compose_ndef_written, Hs by done.
  replace (Z.of_nat (5 + length url)) with (5 + Z.of_nat (length url)) by lia.
  by rewrite <- app_assoc.
Qed.

Lemma tlv_wire_format_witness :
  written <$> (encode ndef_array (cstr "a") ≫= compose_tlv tlv_array)
    = Some [0x03; 0x06; 0xD1; 0x01; 0x02; 0x55; 0x00; 0x61; 0xFE].
Proof.
  apply (tlv_wire_format ndef_array tlv_array (cstr "a")).
  - reflexivity.
  - reflexivity.
  - by_evaluation.
  - simpl. lia.
Defined.

(** ** Decoding *)

Lemma collect_uri_spec n : forall idx (a uri : list Z),
  (idx + n <= length a)%nat ->
  collect_uri n idx a uri = uri ++ take n (drop idx a).
Proof.
  induction n as [|n IH]; intros idx a uri Hn; cbn [collect_uri].
  - by rewrite take_0, app_nil_r.
  - rewrite IH by lia.
    destruct (lookup_lt_is_Some_2 a idx) as [x Hx]; [lia|].
    rewrite (rd_lookup _ _ _ Hx), (drop_S _ _ _ Hx). simpl.
    by rewrite <- app_assoc.
Qed.

Lemma pfx_of_strlen c : (0 <? strlen (pfx_of c))%nat = false -> pfx_of c = [].
Proof.
  unfold pfx_of.
  repeat match goal with |- context [?x =? ?y] => destruct (x =? y) end;
    simpl; done.
Qed.

(** [decode] looks at the first [n] cells only: it skips the first four,
    takes the fifth as identifier code and the rest as the URI. *)
Lemma decode_spec (a : list Z) n :
  (5 <= n <= length a)%nat ->
  decode a n = Uri (pfx_of a.[4] ++ drop 5 (take n a)).
Proof.
  intros Hn. unfold decode.
  destruct (Nat.ltb_spec n 5) as [?|_]; [lia|].
  rewrite collect_uri_spec by lia. simpl.
  rewrite take_drop_commute. replace (5 + (n - 5))%nat with n by lia.
  destruct (Z.eqb_spec a.[4] 0) as [->|_]; simpl; [done|].
  destruct (0 <? strlen (pfx_of a.[4]))%nat eqn:Hp; [done|].
  by rewrite (pfx_of_strlen _ Hp).
Qed.

Lemma decode_short (a : list Z) n : (n < 5)%nat -> decode a n = ShortRecord.
Proof.
  intros Hn. unfold decode. by destruct (Nat.ltb_spec n 5) as [_|?]; [|lia].
Qed.

Lemma rd_take (a : list Z) n i : (i < n)%nat -> (take n a).[i] = a.[i].
Proof. intros Hi. unfold rd. by rewrite lookup_take_lt. Qed.

(** C2: a printable URL of at most 200 bytes comes back from its record
    unchanged, [decode (encode url) = url]; the encoder's identifier code
    0x00 makes the decoder add no prefix. *)
Theorem ndef_roundtrip (ndef0 url : list Z) :
  length ndef0 = 512%nat ->
  printable url ->
  (length url <= 200)%nat ->
  (fun r => decode r.1 r.2) <$> encode ndef0 url = Some (Uri url).
Proof.
  intros Hndef Hp Hlen. apply printable_c_string in Hp as Hurl.
  pose proof (c_string_strlen _ Hurl) as Hs. unfold encode.
  destruct (Nat.ltb_spec 200 (strlen url)) as [?|_]; [lia|]. simpl. f_equal.
  destruct (compose_ndef_spec ndef0 url (strlen url)) as (Hnp & Hnl & _); [lia..|].
  pose proof (compose_ndef_written ndef0 url Hndef Hurl Hlen) as Hw.
  rewrite decode_spec by lia.
  rewrite <- (rd_take _ (compose_ndef ndef0 url (strlen url)).2 4) by lia.
  fold (written (compose_ndef ndef0 url (strlen url))). by rewrite Hw.
Qed.

Lemma ndef_roundtrip_witness :
  (fun r => decode r.1 r.2) <$> encode ndef_array (cstr "https://www.purdue.edu")
    = Some (Uri (cstr "https://www.purdue.edu")).
Proof.
  apply (ndef_roundtrip ndef_array (cstr "https://www.purdue.edu")).
  - reflexivity.
  - by_evaluation.
  - simpl. lia.
Defined.

(** ** Page layout *)

Lemma pad_length n : forall l, length (pad n l) = n.
Proof. induction n as [|n IH]; intros [|x l]; simpl; by rewrite ?IH. Qed.

Lemma pad_nil n : pad n [] = replicate n 0.
Proof. induction n as [|n IH]; simpl; by rewrite ?IH. Qed.

(** [pad] keeps the bytes that are there and adds zeros only. *)
Lemma pad_spec n : forall l, pad n l = take n l ++ replicate (n - length l) 0.
Proof.
  induction n as [|n IH]; intros [|x l]; simpl; [done..| |].
  - by rewrite pad_nil.
  - by rewrite IH.
Qed.

Lemma pages_of_length n : forall bytes, length (pages_of n bytes) = n.
Proof. induction n as [|n IH]; intros bytes; simpl; by rewrite ?IH. Qed.

Lemma pages_of_four n : forall bytes,
  Forall (fun pg => length pg = 4%nat) (pages_of n bytes).
Proof.
  induction n as [|n IH]; intros bytes; simpl; constructor; [|apply IH].
  apply (pad_length 4).
Qed.

(** The pages, end to end, are the bytes followed by the padding. *)
Lemma pages_of_concat n : forall bytes,
  (length bytes <= 4 * n)%nat ->
  concat (pages_of n bytes) = bytes ++ replicate (4 * n - length bytes) 0.
Proof.
  induction n as [|n IH]; intros bytes Hlen.
  - destruct bytes; [done|simpl in Hlen; lia].
  - cbn [pages_of concat]. rewrite IH by (rewrite length_drop; lia).
    rewrite pad_spec, length_drop.
    destruct (decide (length bytes <= 4)%nat) as [Hs|Hs].
    + rewrite (drop_ge bytes 4), (take_ge bytes 4) by done. simpl.
      rewrite <- app_assoc, <- replicate_add. do 2 f_equal. lia.
    + replace (4 - length bytes)%nat with O by lia. simpl.
      rewrite app_nil_r, app_assoc, take_drop. do 2 f_equal. lia.
Qed.

(** The inner loop of the writer fills the whole buffer: the next bytes
    of the TLV, then zeros. *)
Lemma fill_page_spec n : forall i (tlv : list Z) tp (pageBuf : list Z) offset,
  (i + n <= length pageBuf)%nat ->
  (tp <= length tlv)%nat ->
  (offset <= tp)%nat ->
  fill_page n i tlv tp pageBuf offset
    = (take i pageBuf ++ pad n (drop offset (take tp tlv)) ++ drop (i + n) pageBuf,
       Nat.min tp (offset + n)).
Proof.
  induction n as [|n IH]; intros i tlv tp pageBuf offset Hbuf Htp Hoff;
    cbn [fill_page].
  - simpl. rewrite Nat.add_0_r, take_drop. f_equal. lia.
  - destruct (Nat.ltb_spec offset tp) as [Hlt|Hge].
    + destruct (lookup_lt_is_Some_2 tlv offset) as [x Hx]; [lia|].
      rewrite IH; rewrite ?length_insert; try lia.
      rewrite (rd_lookup _ _ _ Hx).
      rewrite (drop_S (take tp tlv) x offset) by by rewrite lookup_take_lt.
      rewrite (take_S_r _ _ x) by (apply list_lookup_insert_eq; lia).
      rewrite take_insert_ge, drop_insert_lt by lia.
      simpl. rewrite <- app_assoc. simpl.
      replace (i + S n)%nat with (S (i + n)) by lia. f_equal. lia.
    + assert (offset = tp) as -> by lia.
      rewrite IH; rewrite ?length_insert; try lia.
      rewrite drop_ge by (rewrite length_take; lia).
      rewrite (take_S_r _ _ 0) by (apply list_lookup_insert_eq; lia).
      rewrite take_insert_ge, drop_insert_lt by lia.
      simpl. rewrite <- app_assoc. simpl.
      replace (i + S n)%nat with (S (i + n)) by lia. f_equal. lia.
Qed.

Lemma fill_page_four (tlv : list Z) tp (pageBuf : list Z) offset :
  length pageBuf = 4%nat ->
  (tp <= length tlv)%nat ->
  (offset <= tp)%nat ->
  fill_page 4 0 tlv tp pageBuf offset
    = (pad 4 (drop offset (take tp tlv)), Nat.min tp (offset + 4)).
Proof.
  intros Hbuf Htp Hoff. rewrite fill_page_spec by lia.
  rewrite (drop_ge pageBuf) by lia. by rewrite app_nil_r.
Qed.

(** [lia] with the defining equations of the quotients by four. *)
Ltac div4_lia :=
  unfold page_count in *;
  repeat match goal with
  | |- context [(?e / 4)%nat] =>
      lazymatch goal with
      | _ : e = (4 * (e / 4) + e mod 4)%nat |- _ => fail
      | _ => pose proof (Nat.div_mod_eq e 4);
             pose proof (Nat.mod_upper_bound e 4 ltac:(lia))
      end
  end; lia.

Lemma page_count_step n :
  (0 < n)%nat -> page_count n = S (page_count (n - Nat.min n 4)).
Proof.
  intros Hn. destruct (decide (n < 4)%nat).
  - replace (n - Nat.min n 4)%nat with O by lia. div4_lia.
  - replace (n - Nat.min n 4)%nat with (n - 4)%nat by lia. div4_lia.
Qed.

Lemma page_count_bound n : (page_count n <= n)%nat.
Proof. div4_lia. Qed.

Lemma page_count_cover n : (n <= 4 * page_count n < n + 4)%nat.
Proof. div4_lia. Qed.

Lemma pages_of_step (tlv : list Z) tp offset :
  (offset < tp <= length tlv)%nat ->
  pages_of (page_count (tp - offset)) (drop offset (take tp tlv))
    = pad 4 (drop offset (take tp tlv))
      :: pages_of (page_count (tp - Nat.min tp (offset + 4)))
           (drop (Nat.min tp (offset + 4)) (take tp tlv)).
Proof.
  intros Hoff. rewrite (page_count_step (tp - offset)) by lia.
  cbn [pages_of]. rewrite drop_drop.
  replace (tp - offset - Nat.min (tp - offset) 4)%nat
    with (tp - Nat.min tp (offset + 4))%nat by lia.
  do 2 f_equal. destruct (decide (offset + 4 <= tp)%nat).
  - f_equal. lia.
  - rewrite !drop_ge; [done|rewrite length_take; lia..].
Qed.

(** ** The writer against any transport *)

Section Writer.
Context {D : Type} `{!PagedTagTransport D}.

Lemma WritePage_run page data (w : world D) :
  exists d ok, ntag2xx_WritePage (dev w) page data = (d, ok) /\
    WritePage page data w = (ok, World d (trace w ++ [EvWritePage page data ok])).
Proof.
  unfold WritePage. destruct (ntag2xx_WritePage (dev w) page data) as [d ok].
  by exists d, ok.
Qed.

Lemma ReadPage_run page (w : world D) :
  (exists d, ntag2xx_ReadPage (dev w) page = (d, None) /\
     ReadPage page w = (None, World d (trace w ++ [EvReadPage page false]))) \/
  (exists d buf, ntag2xx_ReadPage (dev w) page = (d, Some buf) /\
     length buf = 4%nat /\ Forall is_u8 buf /\
     ReadPage page w = (Some buf, World d (trace w ++ [EvReadPage page true]))).
Proof.
  unfold ReadPage.
  destruct (ntag2xx_ReadPage (dev w) page) as [d [buf|]] eqn:Hr.
  - right. exists d, buf. destruct (ReadPage_buffer _ _ _ _ Hr). done.
  - left. by exists d.
Qed.

(** The [while] loop writes the pages in order and stops at the first
    write the transport refuses; [tp - offset] iterations are enough. *)
Lemma write_loop_spec fuel : forall (tlv : list Z) tp offset pageBuf writePage
    (w : world D),
  (tp <= length tlv)%nat ->
  (offset <= tp)%nat ->
  length pageBuf = 4%nat ->
  (tp - offset <= fuel)%nat ->
  0 <= writePage ->
  writePage + Z.of_nat (page_count (tp - offset)) < 65536 ->
  let pages := pages_of (page_count (tp - offset)) (drop offset (take tp tlv)) in
  let r := write_loop fuel tlv tp offset pageBuf writePage w in
  (r.1 = Some true /\ trace r.2 = trace w ++ write_events writePage pages) \/
  (exists k pg, pages !! k = Some pg /\ r.1 = Some false /\
     trace r.2 = trace w ++ write_events writePage (take k pages)
                  ++ [EvWritePage (writePage + Z.of_nat k) pg false]).
Proof.
  induction fuel as [|fuel IH];
    intros tlv tp offset pageBuf writePage w Htp Hoff Hbuf Hfuel Hpage Hmax;
    cbv zeta; cbn [write_loop]; destruct (Nat.ltb_spec offset tp) as [Hlt|Hge]; try lia.
  - left. replace (tp - offset)%nat with O by lia. simpl. by rewrite app_nil_r.
  - rewrite pages_of_step by lia.
    rewrite (page_count_step (tp - offset)) in Hmax by lia.
    replace (tp - offset - Nat.min (tp - offset) 4)%nat
      with (tp - Nat.min tp (offset + 4))%nat in Hmax by lia.
    rewrite fill_page_four by done.
    set (pg := pad 4 (drop offset (take tp tlv))).
    unfold bind. destruct (WritePage_run writePage pg w) as (d & ok & _ & ->).
    destruct ok; cbn [negb].
    + unfold to_u16. rewrite Z.mod_small by lia.
      destruct (IH tlv tp (Nat.min tp (offset + 4)) pg (writePage + 1)
                  (World d (trace w ++ [EvWritePage writePage pg true])))
        as [[Hr Ht]|(k & pg' & Hk & Hr & Ht)]; try lia.
      { apply (pad_length 4). }
      * left. split; [done|]. rewrite Ht. simpl. by rewrite <- app_assoc.
      * right. exists (S k), pg'. split; [done|]. split; [done|].
        rewrite Ht. simpl. rewrite <- app_assoc. simpl.
        replace (writePage + 1 + Z.of_nat k) with (writePage + Z.of_nat (S k)) by lia.
        done.
    + right. exists O, pg. split; [done|]. split; [done|].
      simpl. by rewrite Z.add_0_r.
  - left. replace (tp - offset)%nat with O by lia. simpl. by rewrite app_nil_r.
Qed.

(** The two arrays of [writeNtagUri] end up holding the wire format. *)
Lemma compose_tlv_bytes url :
  (strlen url <= 200)%nat ->
  exists ndef t, encode ndef_array url = Some ndef /\
    compose_tlv tlv_array ndef = Some t /\
    t.2 = length (tlv_bytes url) /\
    (t.2 <= length t.1)%nat /\
    written t = tlv_bytes url.
Proof.
  intros Hlen. pose proof (strlen_le url) as Hle. unfold encode.
  assert (Hn0 : length ndef_array = 512%nat) by reflexivity.
  assert (Ht0 : length tlv_array = 520%nat) by reflexivity.
  destruct (Nat.ltb_spec 200 (strlen url)) as [?|_]; [lia|].
  destruct (compose_ndef_spec ndef_array url (strlen url))
    as (Hnp & Hnl & Hnw); [lia..|].
  destruct (compose_tlv_spec tlv_array (compose_ndef ndef_array url (strlen url)))
    as (t & Ht & Ht2 & Htl & Htw); [lia..|].
  exists (compose_ndef ndef_array url (strlen url)), t.
  assert (Hbytes : written t = tlv_bytes url).
  { rewrite Htw, Hnw, Hnp. unfold tlv_bytes.
    rewrite to_u8_small by (unfold is_u8; lia).
    replace (Z.of_nat (5 + strlen url)) with (5 + Z.of_nat (strlen url)) by lia.
    by rewrite <- app_assoc. }
  split; [done|]. split; [done|]. split; [|split; [lia|done]].
  rewrite <- Hbytes. unfold written. rewrite length_take. lia.
Qed.

Lemma tlv_bytes_length url :
  length (tlv_bytes url) = (strlen url + 8)%nat.
Proof.
  unfold tlv_bytes. pose proof (strlen_le url).
  rewrite !length_app, length_fmap, length_take. simpl. lia.
Qed.

(** Every run of [writeNtagUri] on a URL that passes the guard: the
    read of page 4, then, if the tag answered, the pages of the TLV in
    order up to the first one the transport refuses. *)
Lemma writeNtagUri_spec url (w : world D) :
  (strlen url <= 200)%nat ->
  let pages := pages_of (page_count (length (tlv_bytes url))) (tlv_bytes url) in
  let r := writeNtagUri url w in
  (exists d, ntag2xx_ReadPage (dev w) 4 = (d, None) /\
     r = (Some false, World d (trace w ++ [EvReadPage 4 false]))) \/
  (exists d buf, ntag2xx_ReadPage (dev w) 4 = (d, Some buf) /\
     ((r.1 = Some true /\
         trace r.2 = trace w ++ EvReadPage 4 true :: write_events 4 pages) \/
      (exists k pg, pages !! k = Some pg /\ r.1 = Some false /\
         trace r.2 = trace w ++ EvReadPage 4 true :: write_events 4 (take k pages)
                      ++ [EvWritePage (4 + Z.of_nat k) pg false]))).
Proof.
  intros Hlen. cbv zeta. unfold writeNtagUri.
  destruct (compose_tlv_bytes url Hlen) as (ndef & [tlv tp] & -> & -> & Htp & Hcap & Hw).
  cbn [fst snd] in Htp, Hcap. unfold written in Hw. cbn [fst snd] in Hw.
  subst tp. set (tp := length (tlv_bytes url)) in *.
  unfold bind.
  destruct (ReadPage_run 4 w) as [(d & Hd & ->)|(d & buf & Hd & Hbuf & _ & ->)].
  { left. by exists d. }
  right. exists d, buf. split; [done|].
  pose proof (tlv_bytes_length url) as HT. fold tp in HT.
  pose proof (page_count_bound (tp - 0)) as Hpc.
  destruct (write_loop_spec tp tlv tp 0 buf 4
              (World d (trace w ++ [EvReadPage 4 true])))
    as [[Hr Ht]|(k & pg & Hk & Hr & Ht)]; try lia;
    rewrite Nat.sub_0_r, drop_0, Hw in *.
  - left. split; [done|]. rewrite Ht. simpl. by rewrite <- app_assoc.
  - right. exists k, pg.
    split; [done|]. split; [done|]. rewrite Ht. simpl.
    by rewrite <- app_assoc.
Qed.

(** C3: the encoder accepts every URL of at most 200 bytes and rejects
    every longer one; a rejected URL makes [writeNtagUri] return false
    having called nothing: the transport and the trace are as before. *)
Theorem encode_length_guard (ndef0 url : list Z) (w : world D) :
  ((strlen url <= 200)%nat -> is_Some (encode ndef0 url)) /\
  ((200 < strlen url)%nat ->
     encode ndef0 url = None /\ writeNtagUri url w = (Some false, w)).
Proof.
  unfold writeNtagUri, encode.
  destruct (Nat.ltb_spec 200 (strlen url)) as [Hgt|Hle].
  - split; [lia|done].
  - split; [eauto|lia].
Qed.

(** C4: a successful write of a TLV of [T] bytes is the read of page 4
    followed by exactly [ceil (T / 4)] page writes, to the indices 4, 5,
    ...; the pages are four bytes each and, put end to end, are the TLV
    followed by fewer than four zeros. *)
Theorem page_writes_of_success url (w : world D) :
  (strlen url <= 200)%nat ->
  (writeNtagUri url w).1 = Some true ->
  let T := length (tlv_bytes url) in
  written <$> (encode ndef_array url ≫= compose_tlv tlv_array)
    = Some (tlv_bytes url) /\
  exists pages,
    trace (writeNtagUri url w).2
      = trace w ++ EvReadPage 4 true :: write_events 4 pages /\
    length pages = page_count T /\
    Forall (fun pg => length pg = 4%nat) pages /\
    concat pages = tlv_bytes url ++ replicate (4 * page_count T - T) 0 /\
    (4 * page_count T - T < 4)%nat.
Proof.
  intros Hlen Hok T. split.
  { destruct (compose_tlv_bytes url Hlen) as (ndef & t & -> & Ht & _ & _ & Hw).
    simpl. by rewrite Ht, <- Hw. }
  exists (pages_of (page_count T) (tlv_bytes url)).
  pose proof (page_count_cover T) as Hc.
  split; [|split; [apply pages_of_length|split; [apply pages_of_four|split]]].
  - destruct (writeNtagUri_spec url w Hlen)
      as [(d & _ & Hr)|(d & buf & _ & [[_ Ht]|(k & pg & _ & Hr & _)])];
      [rewrite Hr in Hok; discriminate|done|congruence].
  - apply pages_of_concat. fold T. lia.
  - lia.
Qed.

(** C5: [writeNtagUri] starts by reading page 4 and, when that read
    fails, returns false without any write; otherwise it writes the pages
    in order, each once, and the first write that fails is the last call
    it makes: it returns false at once. *)
Theorem write_fails_fast url (w : world D) :
  (strlen url <= 200)%nat ->
  let pages := pages_of (page_count (length (tlv_bytes url))) (tlv_bytes url) in
  let r := writeNtagUri url w in
  ((ntag2xx_ReadPage (dev w) 4).2 = None ->
     r.1 = Some false /\ trace r.2 = trace w ++ [EvReadPage 4 false]) /\
  (is_Some (ntag2xx_ReadPage (dev w) 4).2 ->
     (r.1 = Some true /\
        trace r.2 = trace w ++ EvReadPage 4 true :: write_events 4 pages) \/
     (exists k pg, pages !! k = Some pg /\ r.1 = Some false /\
        trace r.2 = trace w ++ EvReadPage 4 true :: write_events 4 (take k pages)
                     ++ [EvWritePage (4 + Z.of_nat k) pg false])).
Proof.
  intros Hlen pages r.
  destruct (writeNtagUri_spec url w Hlen) as [(d & Hd & Hr)|(d & buf & Hd & Hr)];
    fold r in Hr; rewrite Hd; simpl.
  - split; [intros _; by rewrite Hr|]. by intros [? [=]].
  - split; [done|]. intros _. exact Hr.
Qed.

End Writer.

Lemma encode_length_guard_witness :
  is_Some (encode ndef_array (replicate 200 0x61)) /\
  (encode ndef_array (replicate 201 0x61) = None /\
   writeNtagUri (replicate 201 0x61) (blank_tag 16) = (Some false, blank_tag 16)).
Proof.
  split.
  - apply (encode_length_guard ndef_array (replicate 200 0x61) (blank_tag 16)).
    vm_compute. lia.
  - apply (encode_length_guard ndef_array (replicate 201 0x61) (blank_tag 16)).
    vm_compute. lia.
Defined.

(** The example of the specification: the URL "a" makes a TLV of nine
    bytes, written as three pages, the last one padded with three zeros. *)
Example write_a :
  writeNtagUri (cstr "a") (blank_tag 16)
  = (Some true,
     World {| mem := replicate 16 0
                     ++ [0x03; 0x06; 0xD1; 0x01; 0x02; 0x55; 0x00; 0x61;
                         0xFE; 0x00; 0x00; 0x00]
                     ++ replicate 36 0;
              present := true; dead_pages := [] |}
           [EvReadPage 4 true;
            EvWritePage 4 [0x03; 0x06; 0xD1; 0x01] true;
            EvWritePage 5 [0x02; 0x55; 0x00; 0x61] true;
            EvWritePage 6 [0xFE; 0x00; 0x00; 0x00] true]).
Proof. reflexivity. Qed.

Lemma page_writes_of_success_witness :
  let url := cstr "a" in
  let w := blank_tag 16 in
  let T := length (tlv_bytes url) in
  written <$> (encode ndef_array url ≫= compose_tlv tlv_array)
    = Some (tlv_bytes url) /\
  exists pages,
    trace (writeNtagUri url w).2
      = trace w ++ EvReadPage 4 true :: write_events 4 pages /\
    length pages = page_count T /\
    Forall (fun pg => length pg = 4%nat) pages /\
    concat pages = tlv_bytes url ++ replicate (4 * page_count T - T) 0 /\
    (4 * page_count T - T < 4)%nat.
Proof.
  intros url w. apply (page_writes_of_success url w).
  - vm_compute. lia.
  - reflexivity.
Defined.

Example write_a_worn :
  let r := writeNtagUri (cstr "a") worn_tag in
  r.1 = Some false /\
  trace r.2 = [EvReadPage 4 true;
               EvWritePage 4 [0x03; 0x06; 0xD1; 0x01] true;
               EvWritePage 5 [0x02; 0x55; 0x00; 0x61] false].
Proof. by split. Qed.

Example write_a_no_tag :
  writeNtagUri (cstr "a") (blank_tag 0)
  = (Some false, World (dev (blank_tag 0)) [EvReadPage 4 false]).
Proof. reflexivity. Qed.

Lemma write_fails_fast_witness :
  let url := cstr "a" in
  let w := worn_tag in
  let pages := pages_of (page_count (length (tlv_bytes url))) (tlv_bytes url) in
  let r := writeNtagUri url w in
  ((ntag2xx_ReadPage (dev w) 4).2 = None ->
     r.1 = Some false /\ trace r.2 = trace w ++ [EvReadPage 4 false]) /\
  (is_Some (ntag2xx_ReadPage (dev w) 4).2 ->
     (r.1 = Some true /\
        trace r.2 = trace w ++ EvReadPage 4 true :: write_events 4 pages) \/
     (exists k pg, pages !! k = Some pg /\ r.1 = Some false /\
        trace r.2 = trace w ++ EvReadPage 4 true :: write_events 4 (take k pages)
                     ++ [EvWritePage (4 + Z.of_nat k) pg false])).
Proof.
  intros url w. apply (write_fails_fast url w). vm_compute. lia.
Defined.

(** ** The scan over a run of bytes *)

Lemma scan_page_feed n : forall i (pageBuf : list Z) s,
  (i + n <= length pageBuf)%nat ->
  scan_page n i pageBuf s = feed (take n (drop i pageBuf)) s.
Proof.
  induction n as [|n IH]; intros i pageBuf s Hn; cbn [scan_page].
  - by rewrite take_0.
  - destruct (lookup_lt_is_Some_2 pageBuf i) as [b Hb]; [lia|].
    rewrite (rd_lookup _ _ _ Hb), (drop_S _ _ _ Hb). cbn [take feed].
    destruct (scan_byte b s) as [s' []]; [|done]. apply IH. lia.
Qed.

Lemma feed_app l1 l2 : forall s,
  feed (l1 ++ l2) s
  = match feed l1 s with
    | (s', ParseDone) => (s', ParseDone)
    | (s', Next) => feed l2 s'
    end.
Proof.
  induction l1 as [|b l1 IH]; intros s; [done|]. cbn [app feed].
  destruct (scan_byte b s) as [s' []]; [apply IH|done].
Qed.

(** Before the tag byte the scan changes nothing, whatever it reads. *)
Lemma feed_start stream : forall s,
  seenTlvStart s = false ->
  feed stream s
  = match after_start stream with
    | None => (s, Next)
    | Some after =>
        feed after (Scan true (seenLen s) (ndefLen s) (collected s)
                      (ndefBytes s) (ndefIndex s))
    end.
Proof.
  induction stream as [|b stream IH]; intros s Hs; [done|].
  cbn [feed after_start]. unfold scan_byte. rewrite Hs. cbn [negb].
  destruct (Z.eqb_spec b 0) as [->|H0]; [by apply IH|].
  destruct (b =? 3); [done|by apply IH].
Qed.

(** The byte after the tag byte is the length; a zero length ends the
    scan. *)
Lemma feed_length len rest s :
  seenTlvStart s = true ->
  seenLen s = false ->
  feed (len :: rest) s
  = let s' := Scan true true len (collected s) (ndefBytes s) (ndefIndex s) in
    if len =? 0 then (s', ParseDone) else feed rest s'.
Proof.
  intros Hst Hsl. cbn [feed]. unfold scan_byte. rewrite Hst, Hsl.
  cbn [negb andb ndefLen]. by destruct (len =? 0).
Qed.

Lemma after_start_Forall (P : Z -> Prop) stream : forall after,
  after_start stream = Some after -> Forall P stream -> Forall P after.
Proof.
  induction stream as [|b stream IH]; intros after; [done|]. cbn [after_start].
  intros Ha Hall. apply Forall_cons in Hall as [_ Hall].
  destruct (b =? 3); [by injection Ha as <-|by apply IH].
Qed.

(** After the length byte the scan stores the next [ndefLen] bytes, or
    as many as there are. *)
Lemma feed_collect rest : forall s,
  seenTlvStart s = true ->
  seenLen s = true ->
  collected s = ndefIndex s ->
  Z.of_nat (collected s) < ndefLen s <= 255 ->
  length (ndefBytes s) = MAX_NDEF ->
  let s' := (feed rest s).1 in
  seenTlvStart s' = true /\ seenLen s' = true /\
  collected s' = ndefIndex s' /\
  (ndefIndex s' <= length (ndefBytes s'))%nat /\
  written (ndefBytes s', ndefIndex s')
    = written (ndefBytes s, ndefIndex s)
      ++ take (Z.to_nat (ndefLen s) - collected s) rest.
Proof.
  induction rest as [|b rest IH]; intros [st sl len c arr idx]; cbn -[feed written];
    intros -> -> -> Hlen Harr; cbv zeta.
  - simpl. rewrite take_nil, app_nil_r. unfold MAX_NDEF in *. repeat split; lia.
  - cbn [feed]. unfold scan_byte.
    cbn -[feed written Z.of_nat Nat.ltb Z.ltb Z.leb MAX_NDEF].
    destruct (Z.ltb_spec (Z.of_nat idx) len) as [_|?]; [|lia].
    destruct (Nat.ltb_spec idx MAX_NDEF) as [_|?]; [|unfold MAX_NDEF in *; lia].
    cbn -[feed written Z.of_nat Z.leb].
    assert (Hw : written (<[idx:=b]> arr, S idx) = written (arr, idx) ++ [b]).
    { apply (written_push (arr, idx)). unfold MAX_NDEF in *. simpl. lia. }
    destruct (Z.leb_spec len (Z.of_nat (S idx))) as [Hdone|Hmore].
    + cbn -[written]. rewrite Hw, length_insert.
      replace (Z.to_nat len - idx)%nat with 1%nat by lia.
      cbn [take]. rewrite take_0. unfold MAX_NDEF in *. repeat split; lia.
    + destruct (IH (Scan true true len (S idx) (<[idx:=b]> arr) (S idx)))
        as (H1 & H2 & H3 & H4 & H5); cbn -[written]; rewrite ?length_insert;
        try done; try lia.
      cbn -[feed written] in H5. rewrite Hw, <- app_assoc in H5.
      split; [done|]. split; [done|]. split; [done|]. split; [done|].
      rewrite H5.
      replace (Z.to_nat len - idx)%nat with (S (Z.to_nat len - S idx)) by lia.
      done.
Qed.

Lemma record_exit_decode (a : list Z) n :
  (0 < n <= length a)%nat -> decode a n = record_exit (take n a).
Proof.
  intros Hn. unfold record_exit.
  destruct (take n a) as [|x rec] eqn:Hrec.
  { apply (f_equal length) in Hrec. rewrite length_take in Hrec. simpl in Hrec. lia. }
  rewrite <- Hrec, length_take, Nat.min_l by lia.
  destruct (Nat.ltb_spec n 5) as [Hs|Hs].
  - by apply decode_short.
  - rewrite decode_spec by lia. by rewrite (rd_take a n 4) by lia.
Qed.

(** The exit of the reader from the state the scan ends in. *)
Lemma parse_done_collected s :
  seenTlvStart s = true ->
  seenLen s = true ->
  collected s = ndefIndex s ->
  (ndefIndex s <= length (ndefBytes s))%nat ->
  parse_done s = record_exit (written (ndefBytes s, ndefIndex s)).
Proof.
  intros Hst Hsl Hc Hidx. unfold parse_done. rewrite Hst, Hsl, Hc. cbn [negb orb].
  unfold written. cbn [fst snd].
  destruct (Nat.eqb_spec (ndefIndex s) 0) as [->|Hn]; [by rewrite take_0|].
  apply record_exit_decode. lia.
Qed.

(** The scan and the parse, from the first byte on: the reader computes
    [read_result]. *)
Lemma scan_result stream :
  Forall is_u8 stream ->
  parse_done (feed stream scan_init).1 = read_result stream.
Proof.
  intros Hu8. unfold read_result. rewrite feed_start by done.
  destruct (after_start stream) as [after|] eqn:Hafter; [|done].
  apply (after_start_Forall _ _ _ Hafter) in Hu8.
  destruct after as [|len rest]; [done|].
  apply Forall_cons in Hu8 as [Hlen _]. unfold is_u8 in Hlen.
  rewrite feed_length by done. cbv zeta. cbn [tlv_exit].
  unfold scan_init. cbn [seenTlvStart seenLen ndefLen collected ndefBytes ndefIndex].
  destruct (Z.eqb_spec len 0) as [->|Hne]; [done|].
  set (s := Scan true true len _ _ _).
  destruct (feed_collect rest s) as (H1 & H2 & H3 & H4 & H5); try done.
  { simpl. lia. }
  rewrite parse_done_collected by done. rewrite H5. simpl.
  by rewrite Nat.sub_0_r.
Qed.

(** ** The reader against any transport *)

Section Reader.
Context {D : Type} `{!PagedTagTransport D}.

Lemma supply_bytes n : forall page (d : D),
  Forall is_u8 (concat (supply n page d)).
Proof.
  induction n as [|n IH]; intros page d; cbn [supply]; [constructor|].
  destruct (ntag2xx_ReadPage d page) as [d' [buf|]] eqn:Hr; [|constructor].
  cbn [concat]. apply Forall_app. split; [|apply IH].
  by destruct (ReadPage_buffer _ _ _ _ Hr).
Qed.

(** The outer loop runs the scan over the pages the transport hands
    out, and stops reading at [parse_done]. *)
Lemma read_loop_feed n : forall page s (w : world D),
  (read_loop n page s w).1 = (feed (concat (supply n page (dev w))) s).1.
Proof.
  induction n as [|n IH]; intros page s w; cbn [read_loop supply]; [done|].
  unfold bind.
  destruct (ReadPage_run page w) as [(d & -> & ->)|(d & buf & -> & Hbuf & _ & ->)];
    [done|].
  cbn [concat]. rewrite feed_app.
  rewrite scan_page_feed, drop_0, take_ge by lia.
  destruct (feed buf s) as [s' []]; [|done].
  by rewrite IH.
Qed.

(** It makes at most [n] calls, all of them reads, of consecutive pages,
    and none after a read that failed. *)
Lemma read_loop_trace n : forall page s (w : world D),
  0 <= page ->
  page + Z.of_nat n < 65536 ->
  exists oks, (length oks <= n)%nat /\
    trace (read_loop n page s w).2 = trace w ++ read_events page oks.
Proof.
  induction n as [|n IH]; intros page s w Hp Hn; cbn [read_loop].
  { exists []. split; [done|]. simpl. by rewrite app_nil_r. }
  unfold bind.
  destruct (ReadPage_run page w) as [(d & _ & ->)|(d & buf & _ & _ & _ & ->)].
  { exists [false]. split; [simpl; lia|done]. }
  destruct (scan_page 4 0 buf s) as [s' []].
  - unfold to_u16. rewrite Z.mod_small by lia.
    destruct (IH (page + 1) s' (World d (trace w ++ [EvReadPage page true])))
      as (oks & Hlen & Ht); [lia..|].
    exists (true :: oks). split; [simpl; lia|].
    rewrite Ht. simpl. by rewrite <- app_assoc.
  - exists [true]. split; [simpl; lia|done].
Qed.

(** [readNtagNdefUri] computes [read_result] on the bytes of the tag. *)
Lemma readNtagNdefUri_spec (w : world D) :
  (readNtagNdefUri w).1 = read_result (tag_stream w).
Proof.
  unfold readNtagNdefUri, bind, tag_stream.
  pose proof (read_loop_feed 128 4 scan_init w) as Hf.
  destruct (read_loop 128 4 scan_init w) as [s w']. cbn [fst ret] in *.
  rewrite Hf. apply scan_result, supply_bytes.
Qed.

Lemma after_start_skip junk after :
  Forall (fun b => b <> 0x03) junk ->
  after_start (junk ++ 0x03 :: after) = Some after.
Proof.
  induction 1 as [|b junk Hb _ IH]; [done|]. cbn [app after_start].
  by destruct (Z.eqb_spec b 3).
Qed.

Lemma after_start_none stream :
  Forall (fun b => b <> 0x03) stream -> after_start stream = None.
Proof.
  induction 1 as [|b junk Hb _ IH]; [done|]. cbn [after_start].
  by destruct (Z.eqb_spec b 3).
Qed.

(** C6: the scan skips every byte before the first 0x03, whatever its
    value; the reader calls the transport at most 128 times, reading
    pages 4, 5, ... in order, and always returns; it answers "no TLV"
    when no 0x03 comes within those pages, and when the byte after the
    first 0x03, the length, is zero. *)
Theorem scan_is_lenient_and_bounded (w : world D) :
  (forall junk after, Forall (fun b => b <> 0x03) junk ->
     feed (junk ++ 0x03 :: after) scan_init
       = feed (0x03 :: after) scan_init /\
     (tag_stream w = junk ++ 0x03 :: after ->
        (readNtagNdefUri w).1 = tlv_exit after)) /\
  (exists oks, (length oks <= 128)%nat /\
     trace (readNtagNdefUri w).2 = trace w ++ read_events 4 oks) /\
  (Forall (fun b => b <> 0x03) (tag_stream w) ->
     (readNtagNdefUri w).1 = NoTlv) /\
  (forall junk rest, Forall (fun b => b <> 0x03) junk ->
     tag_stream w = junk ++ 0x03 :: 0x00 :: rest ->
     (readNtagNdefUri w).1 = NoTlv).
Proof.
  rewrite readNtagNdefUri_spec. unfold read_result.
  split; [|split; [|split]].
  - intros junk after Hjunk. split.
    + rewrite !feed_start by done.
      by rewrite (after_start_skip junk after Hjunk).
    + intros ->. by rewrite after_start_skip.
  - unfold readNtagNdefUri, bind.
    destruct (read_loop_trace 128 4 scan_init w) as (oks & Hlen & Ht); [lia..|].
    exists oks. split; [done|].
    by destruct (read_loop 128 4 scan_init w).
  - intros Hno. by rewrite after_start_none.
  - intros junk rest Hjunk ->. by rewrite after_start_skip.
Qed.

(** What the scan has collected when the tag holds a TLV of non-zero
    length. *)
Lemma read_loop_collected (w : world D) junk len rest :
  Forall (fun b => b <> 0x03) junk ->
  tag_stream w = junk ++ 0x03 :: len :: rest ->
  len <> 0 ->
  let s := (read_loop 128 4 scan_init w).1 in
  written (ndefBytes s, ndefIndex s) = take (Z.to_nat len) rest /\
  collected s = length (take (Z.to_nat len) rest) /\
  ndefIndex s = collected s.
Proof.
  intros Hjunk Hstream Hne s. subst s. rewrite read_loop_feed.
  fold (tag_stream w). pose proof (supply_bytes 128 4 (dev w)) as Hu8.
  fold (tag_stream w) in Hu8. rewrite Hstream in *.
  rewrite feed_start by done. rewrite (after_start_skip _ _ Hjunk).
  apply Forall_app in Hu8 as [_ Hu8].
  apply Forall_cons in Hu8 as [_ Hu8]. apply Forall_cons in Hu8 as [Hlen _].
  unfold is_u8 in Hlen.
  rewrite feed_length by done. cbv zeta.
  destruct (Z.eqb_spec len 0) as [?|_]; [done|].
  unfold scan_init. cbn [seenTlvStart seenLen ndefLen collected ndefBytes ndefIndex].
  set (s := Scan true true len _ _ _).
  destruct (feed_collect rest s) as (_ & _ & H3 & H4 & H5); try done.
  { simpl. lia. }
  simpl in H5. rewrite Nat.sub_0_r in H5.
  split; [done|]. split; [|done].
  rewrite <- H5, H3. unfold written. cbn [fst snd]. rewrite length_take. lia.
Qed.

(** C7, as the code has it: the only test [decode] makes is the one on
    the length.  An input of fewer than five bytes takes the return of
    line 285 and gives the empty String.  An input of five bytes or more
    is never turned down: the type byte is read and not compared with
    0x55, and the value is the prefix of the identifier code followed by
    the bytes after the fifth, the same whatever the fourth byte.  The
    String returned is therefore empty exactly for an input of fewer than
    five bytes and for one of five bytes whose code has no prefix: the
    value alone does not tell a short record from an empty URI. *)
Theorem decode_checks_length_only (a : list Z) (n : nat) :
  (n <= length a)%nat ->
  ((n < 5)%nat -> decode a n = ShortRecord /\ returned (decode a n) = []) /\
  ((5 <= n)%nat ->
     decode a n = Uri (pfx_of a.[4] ++ drop 5 (take n a)) /\
     (forall type, decode (<[3%nat := type]> a) n = decode a n)) /\
  (returned (decode a n) = [] <->
     (n < 5)%nat \/ (n = 5%nat /\ ~ 0x01 <= a.[4] <= 0x04)).
Proof.
  intros Hn. split; [|split].
  - intros Hlt. by rewrite decode_short.
  - intros Hge. split.
    + by rewrite decode_spec by lia.
    + intros type. rewrite !decode_spec by (rewrite ?length_insert; lia).
      unfold rd. rewrite list_lookup_insert_ne by lia.
      rewrite take_insert_lt by lia.
      by rewrite drop_insert_lt by lia.
  - destruct (Nat.lt_ge_cases n 5) as [Hlt|Hge].
    { rewrite decode_short by done. cbn [returned]. split; [by left|done]. }
    rewrite decode_spec by lia. cbn [returned]. split.
    + intros Hnil. apply app_eq_nil in Hnil as [Hp Hd]. right.
      apply (f_equal length) in Hd. rewrite length_drop, length_take in Hd.
      cbn [length] in Hd. split; [lia|]. intros Hc.
      assert (Hcode : a.[4] = 1 \/ a.[4] = 2 \/ a.[4] = 3 \/ a.[4] = 4) by lia.
      destruct Hcode as [Hc1|[Hc1|[Hc1|Hc1]]]; rewrite Hc1 in Hp; discriminate.
    + intros [Hlt|[-> Hc]]; [lia|].
      rewrite (drop_ge _ 5) by (rewrite length_take; lia).
      rewrite app_nil_r. unfold pfx_of.
      repeat match goal with
      | |- context [a.[4] =? ?c] => destruct (Z.eqb_spec a.[4] c); [lia|]
      end. done.
Qed.

(** C8: [decode] puts in front of the bytes after the fifth the prefix
    that the table gives for the identifier code, and for a code outside
    0x00-0x04 it still succeeds, with nothing in front. *)
Theorem decode_prefix_table (a : list Z) (n : nat) :
  (5 <= n <= length a)%nat ->
  let idCode := a.[4] in
  let rest := drop 5 (take n a) in
  (idCode = 0x00 -> decode a n = Uri rest) /\
  (idCode = 0x01 -> decode a n = Uri (cstr "http://www." ++ rest)) /\
  (idCode = 0x02 -> decode a n = Uri (cstr "https://www." ++ rest)) /\
  (idCode = 0x03 -> decode a n = Uri (cstr "http://" ++ rest)) /\
  (idCode = 0x04 -> decode a n = Uri (cstr "https://" ++ rest)) /\
  (~ 0x00 <= idCode <= 0x04 -> decode a n = Uri rest).
Proof.
  intros Hn idCode rest. rewrite decode_spec by done. fold idCode rest.
  repeat split; try by intros ->.
  intros Hc. unfold pfx_of.
  repeat match goal with
  | |- context [idCode =? ?c] => destruct (Z.eqb_spec idCode c); [lia|]
  end. done.
Qed.

(** The third byte of the record does not reach the result. *)
Lemma tlv_exit_payload_length len rest payloadLen :
  tlv_exit (len :: <[2%nat := payloadLen]> rest) = tlv_exit (len :: rest).
Proof.
  cbn [tlv_exit]. destruct (decide (2 < Z.to_nat len)%nat) as [Hn|Hn].
  - rewrite take_insert_lt by done.
    destruct (take (Z.to_nat len) rest) as [|x0 [|x1 [|x2 [|x3 [|x4 rec]]]]]; done.
  - by rewrite take_insert_ge by lia.
Qed.

(** C10, as the code has it: the bytes collected are the first
    [TLV_len] that follow the length byte, or all there are if the pages
    end before; the third byte of the record, its payload length, plays
    no part: a tag that differs in that byte only reads the same; and with
    five bytes or more collected the URI is the prefix of the identifier
    code followed by the collected bytes after the fifth, hence of length
    [prefix + TLV_len - 5] when the record is whole. *)
Theorem record_follows_tlv_length (w : world D) junk len rest :
  Forall (fun b => b <> 0x03) junk ->
  tag_stream w = junk ++ 0x03 :: len :: rest ->
  len <> 0 ->
  let s := (read_loop 128 4 scan_init w).1 in
  let rec := take (Z.to_nat len) rest in
  written (ndefBytes s, ndefIndex s) = rec /\
  collected s = length rec /\
  ((Z.to_nat len <= length rest)%nat -> Z.of_nat (collected s) = len) /\
  (forall (w' : world D) payloadLen,
     tag_stream w' = junk ++ 0x03 :: len :: <[2%nat := payloadLen]> rest ->
     (readNtagNdefUri w').1 = (readNtagNdefUri w).1) /\
  ((5 <= length rec)%nat ->
     (readNtagNdefUri w).1 = Uri (pfx_of rec.[4] ++ drop 5 rec)) /\
  ((5 <= Z.to_nat len <= length rest)%nat ->
     length (returned (readNtagNdefUri w).1)
       = (length (pfx_of rec.[4]) + (Z.to_nat len - 5))%nat).
Proof.
  intros Hjunk Hstream Hne s rec.
  destruct (read_loop_collected w junk len rest Hjunk Hstream Hne)
    as (Hw & Hc & _). fold s rec in Hw, Hc.
  pose proof (supply_bytes 128 4 (dev w)) as Hu8.
  fold (tag_stream w) in Hu8. rewrite Hstream in Hu8.
  apply Forall_app in Hu8 as [_ Hu8].
  apply Forall_cons in Hu8 as [_ Hu8]. apply Forall_cons in Hu8 as [Hlen _].
  unfold is_u8 in Hlen.
  assert (Hread : (readNtagNdefUri w).1 = tlv_exit (len :: rest)).
  { rewrite readNtagNdefUri_spec, Hstream. unfold read_result.
    by rewrite (after_start_skip _ _ Hjunk). }
  assert (Hexit : (5 <= length rec)%nat ->
            (readNtagNdefUri w).1 = Uri (pfx_of rec.[4] ++ drop 5 rec)).
  { intros Hfive. rewrite Hread. cbn [tlv_exit]. fold rec.
    unfold record_exit. destruct rec as [|x rec']; [simpl in Hfive; lia|].
    by destruct (Nat.ltb_spec (length (x :: rec')) 5) as [?|_]; [lia|]. }
  split; [done|]. split; [done|]. split; [|split; [|split]].
  - intros Hwhole. rewrite Hc. unfold rec. rewrite length_take. lia.
  - intros w' payloadLen Hstream'.
    rewrite Hread, readNtagNdefUri_spec, Hstream'. unfold read_result.
    rewrite (after_start_skip _ _ Hjunk). apply tlv_exit_payload_length.
  - done.
  - intros Hwhole.
    assert (Hrec : length rec = Z.to_nat len).
    { unfold rec. rewrite length_take. lia. }
    rewrite Hexit by lia. cbn [returned].
    rewrite length_app, length_drop. lia.
Qed.

End Reader.

(** ** The scheduler *)

Lemma qrList_at_inv i qr :
  qrList_at i = Some qr ->
  0 <= i < numQRs /\ (strlen (cstr (url qr)) <= 200)%nat.
Proof.
  unfold qrList_at. destruct (Z.leb_spec 0 i) as [Hi|]; [|done].
  intros Hqr. assert (Hlt : (Z.to_nat i < 3)%nat).
  { apply lookup_lt_Some in Hqr. simpl in Hqr. lia. }
  split; [unfold numQRs; simpl; lia|].
  destruct (Z.to_nat i) as [|[|[|k]]]; [..|lia];
    injection Hqr as <-; vm_compute; lia.
Qed.

Lemma write_events_no_render page pages :
  Forall (fun e => is_render e = false) (write_events page pages).
Proof.
  revert page. induction pages as [|pg pages IH]; intros page; simpl;
    constructor; [done|apply IH].
Qed.

Section Scheduler.
Context {D : Type} `{!PagedTagTransport D}.

(** A call of [writeNtagUri] on a URL within the cap returns, and calls
    the transport only. *)
Lemma writeNtagUri_returns url (w : world D) :
  (strlen url <= 200)%nat ->
  exists b evs, (writeNtagUri url w).1 = Some b /\
    trace (writeNtagUri url w).2 = trace w ++ evs /\
    Forall (fun e => is_render e = false) evs.
Proof.
  intros Hlen.
  destruct (writeNtagUri_spec url w Hlen)
    as [(d & _ & Hr)|(d & buf & _ & [[Hr Ht]|(k & pg & _ & Hr & Ht)])].
  - rewrite Hr. exists false, [EvReadPage 4 false]. repeat constructor.
  - exists true. eexists. split; [done|]. split; [exact Ht|].
    constructor; [done|]. apply write_events_no_render.
  - exists false. eexists. split; [done|]. split; [exact Ht|].
    constructor; [done|]. apply Forall_app. split.
    + apply write_events_no_render.
    + by repeat constructor.
Qed.

(** A tick of [loop], call by call. *)
Lemma loop_tick (now : Z) (g : globals) (w : world D) qr :
  updateInterval <= to_ulong (now - lastUpdate g) ->
  qrList_at (currentQR g) = Some qr ->
  let next := Globals ((currentQR g + 1) mod numQRs) now in
  let probe := readPassiveTargetID (dev w) in
  let w1 := World probe.1 (trace w ++ [EvRender qr; EvProbe probe.2]) in
  loop now g w
  = if probe.2
    then let r := writeNtagUri (cstr (url qr)) w1 in
         (match r.1 with None => None | Some _ => Some next end, r.2)
    else (Some next, w1).
Proof.
  intros Htick Hqr. cbv zeta. unfold loop.
  destruct (Z.leb_spec updateInterval (to_ulong (now - lastUpdate g))) as [_|?];
    [|lia].
  rewrite Hqr. destruct (qrList_at_inv _ _ Hqr) as [Hi _].
  rewrite Z.rem_mod_nonneg by (unfold numQRs; simpl; lia).
  unfold bind, displayQRCodeWithLabel, Probe. cbn [dev trace].
  destruct (readPassiveTargetID (dev w)) as [d found]. cbn [fst snd].
  rewrite <- app_assoc. cbn [app].
  destruct found; [|done].
  by destruct (writeNtagUri _ _) as [[b|] w2].
Qed.

(** C9, as the code has it: on a tick [loop] first renders the current
    entry, once, then probes for a tag, and last advances the index by one
    modulo the length of the list.  When the probe finds no tag nothing
    else is called: no page is read or written.  When it finds one the
    rest of the tick is the run of [writeNtagUri] on the URL of the entry
    rendered, from the state the probe has left; that run begins with the
    read of page 4, and whatever it returns the index advances. *)
Theorem tick_renders_then_probes (now : Z) (g : globals) (w : world D) qr :
  updateInterval <= to_ulong (now - lastUpdate g) ->
  qrList_at (currentQR g) = Some qr ->
  let found := (readPassiveTargetID (dev w)).2 in
  let r := loop now g w in
  r.1 = Some (Globals ((currentQR g + 1) mod numQRs) now) /\
  exists evs,
    trace r.2 = trace w ++ EvRender qr :: EvProbe found :: evs /\
    Forall (fun e => is_render e = false) evs /\
    (found = false ->
       evs = [] /\ dev r.2 = (readPassiveTargetID (dev w)).1) /\
    (found = true ->
       let w1 := World (readPassiveTargetID (dev w)).1
                   (trace w ++ [EvRender qr; EvProbe true]) in
       r.2 = (writeNtagUri (cstr (url qr)) w1).2 /\
       exists ok rest, evs = EvReadPage 4 ok :: rest).
Proof.
  intros Htick Hqr found r. subst found r.
  rewrite (loop_tick now g w qr Htick Hqr). cbv zeta.
  destruct (qrList_at_inv _ _ Hqr) as [_ Hurl].
  destruct (readPassiveTargetID (dev w)) as [d found]. cbn [fst snd].
  destruct found.
  - set (w1 := World d _).
    destruct (writeNtagUri_returns (cstr (url qr)) w1 Hurl)
      as (b & evs & Hb & Ht & Hevs).
    rewrite Hb. cbn [fst snd]. split; [done|]. exists evs.
    split; [|split; [done|split; [done|]]].
    { rewrite Ht. unfold w1. cbn [trace]. by rewrite <- app_assoc. }
    intros _. split; [done|].
    pose proof (writeNtagUri_spec (cstr (url qr)) w1 Hurl) as Hspec.
    cbv zeta in Hspec.
    destruct Hspec as [(d' & _ & Hr)|(d' & buf & _ & [[_ Ht']|(k & pg & _ & _ & Ht')])].
    + rewrite Hr in Ht. cbn [snd trace] in Ht.
      apply app_inv_head in Ht as <-. by eexists _, _.
    + rewrite Ht' in Ht. apply app_inv_head in Ht as <-. by eexists _, _.
    + rewrite Ht' in Ht. apply app_inv_head in Ht as <-. by eexists _, _.
  - cbn [fst snd trace dev]. split; [done|]. exists [].
    split; [done|]. split; [constructor|done].
Qed.

(** The index stays inside [qrList], so every call of [loop] from the
    initial state has an outcome. *)
Lemma loop_defined (now : Z) (g : globals) (w : world D) :
  0 <= currentQR g < numQRs ->
  exists g', (loop now g w).1 = Some g' /\ 0 <= currentQR g' < numQRs.
Proof.
  intros Hi.
  destruct (Z.leb_spec updateInterval (to_ulong (now - lastUpdate g))) as [Ht|Ht].
  - assert (exists qr, qrList_at (currentQR g) = Some qr) as [qr Hqr].
    { unfold qrList_at. destruct (Z.leb_spec 0 (currentQR g)); [|lia].
      apply lookup_lt_is_Some_2. unfold numQRs in Hi. lia. }
    rewrite (loop_tick now g w qr Ht Hqr). cbv zeta.
    destruct (qrList_at_inv _ _ Hqr) as [_ Hurl].
    exists (Globals ((currentQR g + 1) mod numQRs) now). split.
    + destruct (readPassiveTargetID (dev w)).2; [|done].
      destruct (writeNtagUri_returns (cstr (url qr))
                  (World (readPassiveTargetID (dev w)).1
                     (trace w ++ [EvRender qr; EvProbe true])) Hurl)
        as (b & evs & -> & _). done.
    + cbn [currentQR]. apply Z.mod_pos_bound. unfold numQRs. simpl. lia.
  - exists g. split; [|done]. unfold loop.
    by destruct (Z.leb_spec updateInterval (to_ulong (now - lastUpdate g)));
      [lia|].
Qed.

End Scheduler.

(** ** The theorems on concrete tags and records *)

Lemma scan_is_lenient_and_bounded_witness :
  (readNtagNdefUri null_page_tag).1 = Uri (cstr "a").
Proof.
  destruct (scan_is_lenient_and_bounded null_page_tag) as [Hskip _].
  destruct (Hskip [0x00; 0x00; 0x00; 0x00]
              ([0x06; 0xD1; 0x01; 0x02; 0x55; 0x00; 0x61; 0xFE; 0x00; 0x00; 0x00]
               ++ replicate 32 0)) as [_ Hread].
  - by_evaluation.
  - rewrite Hread; reflexivity.
Defined.

(** A blank tag of 200 pages: the reader gives up after the 128 pages
    from page 4 to page 131. *)
Example read_stops_at_cap :
  let r := readNtagNdefUri (blank_tag 200) in
  r.1 = NoTlv /\
  trace r.2 = read_events 4 (replicate 128 true).
Proof. by split. Qed.

(** A blank tag of 16 pages: the read of page 16 fails and ends the
    scan. *)
Example read_stops_at_failure :
  let r := readNtagNdefUri (blank_tag 16) in
  r.1 = NoTlv /\
  trace r.2 = read_events 4 (replicate 12 true ++ [false]).
Proof. by split. Qed.

(** An empty TLV after two bytes that are neither 0x00 nor 0x03. *)
Example read_empty_tlv :
  let w := World {| mem := replicate 16 0 ++ [0xAA; 0x01; 0x03; 0x00]
                           ++ replicate 44 0xAB;
                    present := true; dead_pages := [] |} [] in
  readNtagNdefUri w = (NoTlv, World (dev w) [EvReadPage 4 true]).
Proof. reflexivity. Qed.

(** What is read back after the sketch has written a tag. *)
Example write_then_read :
  let url := cstr "https://www.purdue.edu" in
  let w := (writeNtagUri url (blank_tag 45)).2 in
  (readNtagNdefUri w).1 = Uri url.
Proof. reflexivity. Qed.

(** C7 fails as stated: this record has the type byte 0x54, not 0x55,
    and [decode] returns the URI "a" for it. *)
Lemma decode_accepts_any_type :
  let rec := [0xD1; 0x01; 0x02; 0x54; 0x00; 0x61] in
  rec.[3] <> 0x55 /\ decode rec 6 = Uri (cstr "a").
Proof. split; [discriminate|reflexivity]. Qed.

Lemma decode_checks_length_only_witness :
  let rec := [0xD1; 0x01; 0x02; 0x54; 0x00; 0x61] in
  (decode rec 4 = ShortRecord /\ returned (decode rec 4) = []) /\
  (decode rec 6 = Uri (pfx_of rec.[4] ++ drop 5 (take 6 rec)) /\
   (forall type, decode (<[3%nat := type]> rec) 6 = decode rec 6)) /\
  returned (decode rec 5) = [].
Proof.
  intros rec. split; [|split].
  - apply (decode_checks_length_only rec 4); simpl; lia.
  - apply (decode_checks_length_only rec 6); simpl; lia.
  - apply (decode_checks_length_only rec 5); [simpl; lia|].
    right. split; [reflexivity|]. vm_compute. intros [H _]. by apply H.
Defined.

(** The record [writeNtagUri] makes of the empty URL has five bytes and
    the type byte 0x55; what [decode] gives for it is the String it gives
    for a record cut short. *)
Example decode_empty_url :
  let rec := [0xD1; 0x01; 0x01; 0x55; 0x00] in
  encode ndef_array [] = Some (rec ++ replicate 507 0, 5%nat) /\
  decode rec 5 = Uri [] /\
  returned (decode rec 5) = returned (decode rec 4).
Proof. by repeat split. Qed.

Lemma decode_prefix_table_witness :
  decode ([0xD1; 0x01; 0x09; 0x55; 0x02] ++ cstr "espn.com") 13
  = Uri (cstr "https://www." ++ cstr "espn.com").
Proof.
  apply (decode_prefix_table ([0xD1; 0x01; 0x09; 0x55; 0x02] ++ cstr "espn.com") 13).
  - simpl. lia.
  - reflexivity.
Defined.

(** An identifier code the table does not know: no prefix, no failure. *)
Example decode_unknown_code :
  decode ([0xD1; 0x01; 0x09; 0x55; 0x23] ++ cstr "espn.com") 13
  = Uri (cstr "espn.com").
Proof. reflexivity. Qed.

(** C9 fails as stated on the order of the calls: on this tick, with no
    tag in the field, the entry is rendered before the tag is probed, and
    no probe comes before a render. *)
Lemma render_precedes_probe :
  let r := loop 60000 globals_init absent_tag in
  trace r.2
    = [EvRender {| name := "ESPN Homepage"; url := "https://www.espn.com" |};
       EvProbe false] /\
  ~ probe_then_render (trace r.2).
Proof.
  split; [reflexivity|].
  intros (l1 & found & l2 & qr & l3 & H).
  change (trace (loop 60000 globals_init absent_tag).2)
    with [EvRender {| name := "ESPN Homepage"; url := "https://www.espn.com" |};
          EvProbe false] in H.
  destruct l1 as [|e1 [|e2 l1]]; [discriminate| |].
  - injection H as _ _ H. by destruct l2.
  - injection H as _ _ H. by destruct l1.
Qed.

Lemma tick_renders_then_probes_witness :
  let qr := {| name := "ESPN Homepage"; url := "https://www.espn.com" |} in
  (let r := loop 60000 globals_init absent_tag in
   r.1 = Some (Globals 1 60000) /\
   exists evs,
     trace r.2 = trace absent_tag ++ EvRender qr :: EvProbe false :: evs /\
     Forall (fun e => is_render e = false) evs /\
     (false = false -> evs = [] /\ dev r.2 = dev absent_tag) /\
     (false = true ->
        let w1 := World (dev absent_tag)
                    (trace absent_tag ++ [EvRender qr; EvProbe true]) in
        r.2 = (writeNtagUri (cstr (url qr)) w1).2 /\
        exists ok rest, evs = EvReadPage 4 ok :: rest)) /\
  (let r := loop 60000 globals_init (blank_tag 16) in
   r.1 = Some (Globals 1 60000) /\
   exists evs,
     trace r.2 = trace (blank_tag 16) ++ EvRender qr :: EvProbe true :: evs /\
     Forall (fun e => is_render e = false) evs /\
     (true = false -> evs = [] /\ dev r.2 = dev (blank_tag 16)) /\
     (true = true ->
        let w1 := World (dev (blank_tag 16))
                    (trace (blank_tag 16) ++ [EvRender qr; EvProbe true]) in
        r.2 = (writeNtagUri (cstr (url qr)) w1).2 /\
        exists ok rest, evs = EvReadPage 4 ok :: rest)).
Proof.
  intros qr.
  assert (Htick : updateInterval <= to_ulong (60000 - lastUpdate globals_init))
    by (vm_compute; discriminate).
  assert (Hqr : qrList_at (currentQR globals_init) = Some qr) by reflexivity.
  split.
  - exact (tick_renders_then_probes 60000 globals_init absent_tag qr Htick Hqr).
  - exact (tick_renders_then_probes 60000 globals_init (blank_tag 16) qr Htick Hqr).
Defined.

(** A tick with a tag in the field: the pages of the TLV of the entry
    rendered go to the tag, and the tag then reads as its URL. *)
Example tick_writes_the_tag :
  let r := loop 60000 globals_init (blank_tag 16) in
  r.1 = Some (Globals 1 60000) /\
  length (trace r.2) = 10%nat /\
  take 4 (trace r.2)
    = [EvRender {| name := "ESPN Homepage"; url := "https://www.espn.com" |};
       EvProbe true; EvReadPage 4 true;
       EvWritePage 4 [0x03; 0x19; 0xD1; 0x01] true] /\
  (readNtagNdefUri (World (dev r.2) [])).1 = Uri (cstr "https://www.espn.com").
Proof. vm_compute. by repeat split. Qed.

(** The three instants of the specification: nothing happens before
    the interval has passed. *)
Example tick_times :
  loop 0 globals_init absent_tag = (Some globals_init, absent_tag) /\
  loop 59999 globals_init absent_tag = (Some globals_init, absent_tag) /\
  (loop 60000 globals_init absent_tag).1 = Some (Globals 1 60000).
Proof. by repeat split. Qed.

(** C10 fails as stated: the TLV of this tag has length 6 and its record
    the identifier code 0x04; the URI read is "https://a", nine characters,
    not the one collected byte after the first five. *)
Lemma prefixed_uri_is_longer :
  let r := (readNtagNdefUri https_tag).1 in
  take 9 (tag_stream https_tag)
    = [0x03; 0x06; 0xD1; 0x01; 0x63; 0x55; 0x04; 0x61; 0xFE] /\
  r = Uri (cstr "https://a") /\
  returned r <> [0x61] /\
  length (returned r) <> (6 - 5)%nat.
Proof.
  assert (Hr : (readNtagNdefUri https_tag).1 = Uri (cstr "https://a"))
    by (vm_compute; reflexivity).
  cbv zeta. rewrite Hr. split; [vm_compute; reflexivity|]. split; [done|].
  split; [discriminate|simpl; lia].
Qed.

Lemma record_follows_tlv_length_witness :
  let s := (read_loop 128 4 scan_init https_tag).1 in
  let rec := [0xD1; 0x01; 0x63; 0x55; 0x04; 0x61] in
  written (ndefBytes s, ndefIndex s) = rec /\
  collected s = 6%nat /\
  (readNtagNdefUri https_tag).1 = Uri (cstr "https://" ++ [0x61]) /\
  length (returned (readNtagNdefUri https_tag).1) = (8 + (6 - 5))%nat.
Proof.
  destruct (record_follows_tlv_length https_tag [] 0x06
              ([0xD1; 0x01; 0x63; 0x55; 0x04; 0x61; 0xFE; 0x00; 0x00; 0x00]
               ++ replicate 36 0))
    as (Hw & Hc & _ & _ & Hexit & Hlen).
  - constructor.
  - reflexivity.
  - discriminate.
  - split; [exact Hw|]. split; [exact Hc|]. split.
    + apply Hexit. simpl. lia.
    + apply Hlen. simpl. lia.
Defined.

(** * Further properties of the sketch *)

(** ** The writer: arrays and pages *)

(** X1: a URL that passes the guard never fills the arrays: its record
    takes [5 + urlLen <= 205] of the 512 cells of [ndef] and its TLV three
    more, at most 208 of the 520 cells of [tlv]; the branch "NDEF too
    large" is never taken. *)
Theorem arrays_never_fill (ndef0 tlv0 url : list Z) ndef :
  length ndef0 = 512%nat ->
  length tlv0 = 520%nat ->
  encode ndef0 url = Some ndef ->
  ndef.2 = (5 + strlen url)%nat /\ (ndef.2 <= 205)%nat /\
  length ndef.1 = 512%nat /\
  exists t, compose_tlv tlv0 ndef = Some t /\
    t.2 = (ndef.2 + 3)%nat /\ (t.2 <= 208)%nat /\ length t.1 = 520%nat.
Proof.
  intros Hn0 Ht0. unfold encode. pose proof (strlen_le url) as Hle.
  destruct (Nat.ltb_spec 200 (strlen url)) as [?|Hlen]; [done|].
  intros [= <-].
  destruct (compose_ndef_spec ndef0 url (strlen url)) as (Hnp & Hnl & _); [lia..|].
  destruct (compose_tlv_spec tlv0 (compose_ndef ndef0 url (strlen url)))
    as (t & Ht & Ht2 & Htl & _); [lia..|].
  split; [done|]. split; [lia|]. split; [lia|].
  exists t. split; [done|]. split; [done|]. split; lia.
Qed.

Lemma arrays_never_fill_witness :
  exists ndef, encode ndef_array (replicate 200 0x61) = Some ndef /\
    ndef.2 = 205%nat /\
    exists t, compose_tlv tlv_array ndef = Some t /\ t.2 = 208%nat.
Proof.
  exists (compose_ndef ndef_array (replicate 200 0x61) 200).
  destruct (arrays_never_fill ndef_array tlv_array (replicate 200 0x61)
              (compose_ndef ndef_array (replicate 200 0x61) 200))
    as (Hnp & _ & _ & t & Ht & Ht2 & _).
  - reflexivity.
  - reflexivity.
  - reflexivity.
  - split; [reflexivity|]. split; [exact Hnp|].
    exists t. split; [exact Ht|]. rewrite Ht2, Hnp. reflexivity.
Defined.

Lemma write_events_range page pages :
  Forall (fun e => match e with
                   | EvWritePage p _ _ => page <= p < page + Z.of_nat (length pages)
                   | _ => False
                   end) (write_events page pages).
Proof.
  revert page. induction pages as [|pg pages IH]; intros page; cbn [write_events];
    constructor.
  - simpl. lia.
  - eapply Forall_impl; [apply IH|]. intros [] Hp; try done. simpl. lia.
Qed.

Lemma write_events_data page pages :
  Forall (fun pg => length pg = 4%nat) pages ->
  Forall (fun e => match e with
                   | EvWritePage _ d _ => length d = 4%nat
                   | _ => False
                   end) (write_events page pages).
Proof.
  intros H. revert page. induction H as [|pg pages Hpg _ IH]; intros page;
    cbn [write_events]; constructor; [done|apply IH].
Qed.

Lemma length_write_events page pages :
  length (write_events page pages) = length pages.
Proof.
  revert page. induction pages as [|pg pages IH]; intros page; simpl;
    by rewrite ?IH.
Qed.

Lemma write_events_ok pages :
  (length pages <= 52)%nat ->
  Forall (fun pg => length pg = 4%nat) pages ->
  Forall page_call_ok (write_events 4 pages).
Proof.
  intros Hlen Hfour.
  pose proof (write_events_range 4 pages) as Hr.
  pose proof (write_events_data 4 pages Hfour) as Hd.
  rewrite Forall_forall in Hr, Hd. apply Forall_forall. intros e He.
  specialize (Hr e He). specialize (Hd e He).
  destruct e; try done. simpl. split; [lia|done].
Qed.

Section Writer_pages.
Context {D : Type} `{!PagedTagTransport D}.

(** X2: whatever the URL and whatever the transport answers,
    [writeNtagUri] returns, having made at most 53 calls, each of them
    the read of page 4 or a write of four bytes to a page from 4 to 55: it
    never touches pages 0 to 3 and never probes or renders. *)
Theorem writer_stays_in_user_pages url (w : world D) :
  exists b evs,
    (writeNtagUri url w).1 = Some b /\
    trace (writeNtagUri url w).2 = trace w ++ evs /\
    (length evs <= 53)%nat /\
    Forall page_call_ok evs.
Proof.
  destruct (decide (strlen url <= 200)%nat) as [Hlen|Hlen].
  - set (pages := pages_of (page_count (length (tlv_bytes url))) (tlv_bytes url)).
    assert (Hcount : (length pages <= 52)%nat).
    { unfold pages. rewrite pages_of_length, tlv_bytes_length. div4_lia. }
    assert (Hfour : Forall (fun pg => length pg = 4%nat) pages)
      by apply pages_of_four.
    pose proof (writeNtagUri_spec url w Hlen) as Hspec. cbv zeta in Hspec.
    fold pages in Hspec.
    destruct Hspec
      as [(d & _ & Hr)|(d & buf & _ & [[Hr Ht]|(k & pg & Hk & Hr & Ht)])].
    + rewrite Hr. exists false, [EvReadPage 4 false].
      repeat split; [simpl; lia|]. by repeat constructor.
    + exists true, (EvReadPage 4 true :: write_events 4 pages).
      repeat split; [done..| |].
      * simpl. rewrite length_write_events. lia.
      * constructor; [done|]. by apply write_events_ok.
    + exists false, (EvReadPage 4 true :: write_events 4 (take k pages)
                       ++ [EvWritePage (4 + Z.of_nat k) pg false]).
      apply lookup_lt_Some in Hk as Hklt.
      repeat split; [done..| |].
      * simpl. rewrite length_app, length_write_events, length_take. simpl. lia.
      * constructor; [done|]. apply Forall_app. split.
        -- apply write_events_ok; [rewrite length_take; lia|].
           by apply Forall_take.
        -- constructor; [|constructor]. simpl. split; [lia|].
           rewrite Forall_forall in Hfour. apply Hfour.
           by eapply list_elem_of_lookup_2.
  - exists false, []. unfold writeNtagUri, encode.
    destruct (Nat.ltb_spec 200 (strlen url)) as [_|?]; [|lia].
    repeat split; [by rewrite app_nil_r|simpl; lia|constructor].
Qed.

End Writer_pages.

(** ** The reader: what the bytes of a tag decide *)

Lemma record_exit_encoded url :
  record_exit ([0xD1; 0x01; 1 + Z.of_nat (length url); 0x55; 0x00] ++ url)
  = Uri url.
Proof.
  unfold record_exit. cbn [app]. cbn [length].
  destruct (Nat.ltb_spec (S (S (S (S (S (length url)))))) 5) as [?|_]; [lia|].
  done.
Qed.

(** The TLV of a URL, among other bytes, reads as that URL. *)
Lemma read_result_written (url junk rest : list Z) :
  c_string url ->
  (length url <= 200)%nat ->
  Forall (fun b => b <> 0x03) junk ->
  read_result (junk ++ tlv_bytes url ++ rest) = Uri url.
Proof.
  intros Hurl Hlen Hjunk. unfold read_result, tlv_bytes.
  rewrite (c_string_strlen _ Hurl), firstn_all, (c_string_u8 _ Hurl).
  cbn [app]. rewrite (after_start_skip _ _ Hjunk). cbn [tlv_exit].
  replace (Z.to_nat (5 + Z.of_nat (length url))) with (5 + length url)%nat by lia.
  change (0xD1 :: 0x01 :: 1 + Z.of_nat (length url) :: 0x55 :: 0x00
            :: (url ++ [0xFE]) ++ rest)
    with ([0xD1; 0x01; 1 + Z.of_nat (length url); 0x55; 0x00]
            ++ (url ++ [0xFE]) ++ rest).
  rewrite <- (app_assoc url), app_assoc.
  rewrite take_app_length' by (rewrite length_app; simpl; lia).
  apply record_exit_encoded.
Qed.

Section Reader_bytes.
Context {D : Type} `{!PagedTagTransport D}.


(** X4: a TLV that yields fewer than five record bytes, because its
    length byte is below 5 or because the pages end first, makes the
    reader return the empty String: by the "no TLV" exit when no byte was
    collected, by the short-record exit otherwise. *)
Theorem short_tlv_reads_empty (w : world D) (junk rest : list Z) (len : Z) :
  Forall (fun b => b <> 0x03) junk ->
  tag_stream w = junk ++ 0x03 :: len :: rest ->
  let rec := take (Z.to_nat len) rest in
  (length rec < 5)%nat ->
  (readNtagNdefUri w).1 = (if decide (rec = []) then NoTlv else ShortRecord) /\
  returned (readNtagNdefUri w).1 = [].
Proof.
  intros Hjunk Hstream rec Hshort.
  rewrite readNtagNdefUri_spec, Hstream. unfold read_result.
  rewrite (after_start_skip _ _ Hjunk). cbn [tlv_exit]. fold rec.
  unfold record_exit. destruct rec as [|x rec']; [done|].
  destruct (Nat.ltb_spec (length (x :: rec')) 5) as [_|?]; [|lia].
  by destruct (decide (x :: rec' = [])).
Qed.


End Reader_bytes.


Lemma short_tlv_reads_empty_witness :
  let w := tag_of_bytes [0x03; 0x02; 0xD1; 0x01] in
  (readNtagNdefUri w).1 = ShortRecord /\ returned (readNtagNdefUri w).1 = [].
Proof.
  intros w.
  apply (short_tlv_reads_empty w [] [0xD1; 0x01] 0x02).
  - constructor.
  - reflexivity.
  - simpl. lia.
Defined.


(** ** The scheduler over many calls *)

Lemma renders_app l1 l2 : renders (l1 ++ l2) = renders l1 ++ renders l2.
Proof. apply omap_app. Qed.

Lemma renders_none evs :
  Forall (fun e => is_render e = false) evs -> renders evs = [].
Proof.
  induction 1 as [|e evs He _ IH]; [done|].
  unfold renders in *. cbn [omap]. by destruct e.
Qed.

Lemma to_ulong_elapsed last e :
  0 <= last < 4294967296 ->
  0 <= e < 4294967296 ->
  to_ulong (to_ulong (last + e) - last) = e.
Proof.
  intros Hl He. unfold to_ulong.
  destruct (decide (last + e < 4294967296)) as [Hs|Hs].
  - rewrite (Z.mod_small (last + e)) by lia.
    replace (last + e - last) with e by lia. apply Z.mod_small. lia.
  - replace (last + e) with ((last + e - 4294967296) + 1 * 4294967296) by lia.
    rewrite Z.mod_add by lia.
    rewrite (Z.mod_small (last + e - 4294967296)) by lia.
    replace (last + e - 4294967296 - last) with (e + (-1) * 4294967296) by lia.
    rewrite Z.mod_add by lia. apply Z.mod_small. lia.
Qed.

Section Scheduler_runs.
Context {D : Type} `{!PagedTagTransport D}.

(** One call of [loop]: nothing at all, or a tick. *)
Lemma loop_step (now : Z) (g : globals) (w : world D) :
  0 <= currentQR g < numQRs ->
  (to_ulong (now - lastUpdate g) < updateInterval /\ loop now g w = (Some g, w)) \/
  (updateInterval <= to_ulong (now - lastUpdate g) /\
   exists qr evs,
     qrList_at (currentQR g) = Some qr /\
     (loop now g w).1 = Some (Globals ((currentQR g + 1) mod numQRs) now) /\
     trace (loop now g w).2 = trace w ++ EvRender qr :: evs /\
     Forall (fun e => is_render e = false) evs).
Proof.
  intros Hi.
  destruct (Z.leb_spec updateInterval (to_ulong (now - lastUpdate g))) as [Ht|Ht].
  - right. split; [done|].
    assert (exists qr, qrList_at (currentQR g) = Some qr) as [qr Hqr].
    { unfold qrList_at. destruct (Z.leb_spec 0 (currentQR g)); [|lia].
      apply lookup_lt_is_Some_2. unfold numQRs in Hi. lia. }
    destruct (qrList_at_inv _ _ Hqr) as [_ Hurl].
    rewrite (loop_tick now g w qr Ht Hqr). cbv zeta.
    destruct (readPassiveTargetID (dev w)) as [d found]. cbn [fst snd].
    exists qr. destruct found.
    + destruct (writeNtagUri_returns (cstr (url qr))
                  (World d (trace w ++ [EvRender qr; EvProbe true])) Hurl)
        as (b & evs & Hb & Hevs_eq & Hevs). cbn [fst snd].
      rewrite Hb, Hevs_eq. cbn [trace].
      exists (EvProbe true :: evs). split; [done|]. split; [done|].
      split; [by rewrite <- app_assoc|]. by constructor.
    + exists [EvProbe false]. cbn [fst snd trace]. split; [done|].
      split; [done|]. split; [done|]. by repeat constructor.
  - left. split; [done|]. unfold loop.
    by destruct (Z.leb_spec updateInterval (to_ulong (now - lastUpdate g)));
      [lia|].
Qed.

(** X6: the timing of [loop] survives the rollover of [millis()].  If
    [e] milliseconds, fewer than 2^32, have passed since the last tick
    and [millis()] has wrapped accordingly, a call does nothing at all
    when [e < 60000] (state, transport and trace are unchanged) and ticks
    when [e >= 60000], recording the new time. *)
Theorem tick_survives_rollover (g : globals) (w : world D) (e : Z) :
  0 <= lastUpdate g < 4294967296 ->
  0 <= e < 4294967296 ->
  0 <= currentQR g < numQRs ->
  let now := to_ulong (lastUpdate g + e) in
  (e < updateInterval -> loop now g w = (Some g, w)) /\
  (updateInterval <= e ->
     (loop now g w).1 = Some (Globals ((currentQR g + 1) mod numQRs) now) /\
     length (renders (trace (loop now g w).2)) = S (length (renders (trace w)))).
Proof.
  intros Hlast He Hi now.
  pose proof (to_ulong_elapsed _ _ Hlast He) as Hel. fold now in Hel.
  destruct (loop_step now g w Hi)
    as [[Ht Hr]|(Ht & qr & evs & _ & Hr & Htr & Hevs)]; rewrite Hel in Ht.
  - split; [done|lia].
  - split; [lia|]. intros _. split; [done|].
    rewrite Htr, renders_app. change (EvRender qr :: evs) with ([EvRender qr] ++ evs).
    rewrite renders_app, (renders_none _ Hevs), !length_app. simpl. lia.
Qed.

(** X7: the rotation is round robin whatever the tag does.  Over any
    run of calls of [loop], at any times and against any transport, every
    call has an outcome, and there is one render for each call on which
    the interval has elapsed and no other: the entries rendered are that
    many consecutive entries of [qrList], going round from the current
    index, and the index ends that many steps further modulo the length of
    the list. *)
Theorem rotation_is_round_robin (nows : list Z) : forall (g : globals) (w : world D),
  0 <= currentQR g < numQRs ->
  let k := ticks nows (lastUpdate g) in
  let r := run_loop nows g w in
  exists g',
    r.1 = Some g' /\
    renders (trace r.2) = renders (trace w) ++ rotation (currentQR g) k /\
    length (renders (trace r.2)) = (length (renders (trace w)) + k)%nat /\
    currentQR g' = (currentQR g + Z.of_nat k) mod numQRs.
Proof.
  induction nows as [|now nows IH]; intros g w Hi; cbv zeta;
    cbn [run_loop ticks].
  { exists g. cbn [ret fst snd rotation].
    rewrite app_nil_r, Z.add_0_r, Nat.add_0_r, Z.mod_small by done. done. }
  unfold bind.
  destruct (loop_step now g w Hi)
    as [[Hlt Hr]|(Hge & qr & evs & Hqr & Hr & Htr & Hevs)].
  - destruct (Z.leb_spec updateInterval (to_ulong (now - lastUpdate g)));
      [lia|].
    rewrite Hr. exact (IH g w Hi).
  - destruct (Z.leb_spec updateInterval (to_ulong (now - lastUpdate g)));
      [|lia].
    destruct (loop now g w) as [r w1]. cbn [fst snd] in Hr, Htr. subst r.
    set (g1 := Globals ((currentQR g + 1) mod numQRs) now).
    assert (Hi1 : 0 <= currentQR g1 < numQRs).
    { apply Z.mod_pos_bound. unfold numQRs. simpl. lia. }
    destruct (IH g1 w1 Hi1) as (g' & H1 & H3 & H5 & H4).
    cbn [lastUpdate g1] in H3, H5, H4.
    assert (Hrw : renders (trace w1) = renders (trace w) ++ [qr]).
    { rewrite Htr, renders_app.
      change (EvRender qr :: evs) with ([EvRender qr] ++ evs).
      by rewrite renders_app, (renders_none _ Hevs), app_nil_r. }
    exists g'. split; [done|]. split; [|split].
    + rewrite H3, Hrw. cbn [rotation]. rewrite Hqr. by rewrite <- app_assoc.
    + rewrite H5, Hrw, length_app. simpl. lia.
    + rewrite H4. cbn [currentQR g1].
      rewrite Zplus_mod_idemp_l. f_equal. lia.
Qed.

(** X8: [waitForTagRemoval] calls nothing but the presence probe, and
    returns exactly at the first probe that finds no tag: after [k]
    probes that found one and one that did not.  While every probe finds
    the tag it keeps polling. *)
Theorem wait_polls_until_tag_leaves (fuel : nat) : forall (w : world D),
  let r := waitForTagRemoval fuel w in
  (r.1 = Some tt /\
   exists k, (k < fuel)%nat /\
     trace r.2 = trace w ++ replicate k (EvProbe true) ++ [EvProbe false]) \/
  (r.1 = None /\ trace r.2 = trace w ++ replicate fuel (EvProbe true)).
Proof.
  induction fuel as [|fuel IH]; intros w; cbv zeta; cbn [waitForTagRemoval].
  { right. split; [done|]. simpl. by rewrite app_nil_r. }
  unfold bind, Probe. destruct (readPassiveTargetID (dev w)) as [d found].
  destruct found.
  - destruct (IH (World d (trace w ++ [EvProbe true])))
      as [(Hr & k & Hk & Ht)|(Hr & Ht)]; cbn [trace] in Ht.
    + left. split; [done|]. exists (S k). split; [lia|].
      rewrite Ht. by rewrite <- app_assoc.
    + right. split; [done|]. rewrite Ht. by rewrite <- app_assoc.
  - left. split; [done|]. exists O. split; [lia|done].
Qed.

End Scheduler_runs.

Lemma tick_survives_rollover_witness :
  let g := Globals 2 4294960000 in
  (loop (to_ulong (4294960000 + 59999)) g absent_tag = (Some g, absent_tag)) /\
  (loop 52704 g absent_tag).1 = Some (Globals 0 52704).
Proof.
  intros g. split.
  - apply (tick_survives_rollover g absent_tag 59999); vm_compute; by try split.
  - assert (H1 : 0 <= lastUpdate g < 4294967296) by (vm_compute; by split).
    assert (H2 : 0 <= 60000 < 4294967296) by (vm_compute; by split).
    assert (H3 : 0 <= currentQR g < numQRs) by (vm_compute; by split).
    assert (H4 : updateInterval <= 60000) by (vm_compute; discriminate).
    exact (proj1 (proj2 (tick_survives_rollover g absent_tag 60000 H1 H2 H3) H4)).
Defined.

Lemma rotation_is_round_robin_witness :
  let nows := [0; 60000; 61000; 120000; 180000; 240000] in
  let r := run_loop nows globals_init (blank_tag 16) in
  exists g',
    r.1 = Some g' /\
    renders (trace r.2) = renders (trace (blank_tag 16)) ++ rotation 0 4 /\
    length (renders (trace r.2))
      = (length (renders (trace (blank_tag 16))) + 4)%nat /\
    currentQR g' = (0 + Z.of_nat 4) mod numQRs.
Proof.
  intros nows.
  assert (Hi : 0 <= currentQR globals_init < numQRs) by (vm_compute; by split).
  exact (rotation_is_round_robin nows globals_init (blank_tag 16) Hi).
Defined.

(** Four ticks in six calls: the three entries in order, then the first
    again. *)
Example four_ticks :
  let r := run_loop [0; 60000; 61000; 120000; 180000; 240000] globals_init
             (blank_tag 16) in
  r.1 = Some (Globals 1 240000) /\
  url <$> renders (trace r.2)
    = ["https://www.espn.com"; "https://www.purdue.edu";
       "https://www.github.com"; "https://www.espn.com"]%string.
Proof. vm_compute. by split. Qed.

(** A tag that stays in the field for good: no number of polls makes
    [waitForTagRemoval] return. *)
Example wait_blocks fuel tr :
  (waitForTagRemoval fuel (World (dev (blank_tag 16)) tr)).1 = None.
Proof.
  revert tr. induction fuel as [|fuel IH]; intros tr; [done|].
  cbn [waitForTagRemoval]. unfold bind, Probe. simpl. apply IH.
Qed.

(** ** The reader: how many pages it reads *)



Section Reader_pages.
Context {D : Type} `{!PagedTagTransport D}.



End Reader_pages.


(** ** Writing a tag and reading it back *)

Lemma tlv_bytes_u8 url :
  c_string url -> (length url <= 200)%nat -> Forall is_u8 (tlv_bytes url).
Proof.
  intros Hurl Hlen. unfold tlv_bytes.
  rewrite (c_string_strlen _ Hurl), firstn_all, (c_string_u8 _ Hurl).
  unfold is_u8. repeat (apply Forall_cons; split; [lia|]).
  apply Forall_app. split.
  - eapply Forall_impl; [exact Hurl|]. intros c Hc. simpl in Hc. lia.
  - repeat constructor; lia.
Qed.

Lemma to_u8_id (l : list Z) : Forall is_u8 l -> to_u8 <$> l = l.
Proof.
  induction 1 as [|c l Hc _ IH]; csimpl; [done|]. by rewrite IH, to_u8_small.
Qed.

(** Reads of a tag in memory hand out its bytes, page after page. *)
Lemma mem_supply_prefix j : forall n page (t : MemTag),
  (j <= n)%nat ->
  0 <= page ->
  page + Z.of_nat n < 65536 ->
  (Z.to_nat (4 * page) + 4 * j <= length (mem t))%nat ->
  exists rest,
    concat (supply n page t)
    = (to_u8 <$> take (4 * j) (drop (Z.to_nat (4 * page)) (mem t))) ++ rest.
Proof.
  induction j as [|j IH]; intros n page t Hj Hp Hn Hmem.
  { eexists. by rewrite take_0. }
  destruct n as [|n]; [lia|]. cbn [supply].
  change (ntag2xx_ReadPage t page) with (mem_read t page).
  unfold mem_read, in_tag.
  destruct (Z.leb_spec 0 page) as [_|?]; [|lia].
  destruct (Nat.leb_spec (Z.to_nat (4 * page) + 4) (length (mem t))) as [_|?];
    [|lia].
  cbn [andb concat]. unfold to_u16. rewrite Z.mod_small by lia.
  destruct (IH n (page + 1) t) as [rest Hrest]; [lia..|].
  exists rest. rewrite Hrest, app_assoc, <- fmap_app. do 2 f_equal.
  replace (Z.to_nat (4 * (page + 1))) with (Z.to_nat (4 * page) + 4)%nat by lia.
  rewrite <- drop_drop, take_take_drop. f_equal. lia.
Qed.

(** On a tag in memory with room and no dead page the loop of the
    writer succeeds and leaves the pages in place, the rest untouched. *)
Lemma mem_write_loop fuel : forall (tlv : list Z) tp offset pageBuf writePage
    (t : MemTag) tr (i : nat),
  (tp <= length tlv)%nat ->
  (offset <= tp)%nat ->
  length pageBuf = 4%nat ->
  (tp - offset <= fuel)%nat ->
  0 <= writePage ->
  writePage + Z.of_nat (page_count (tp - offset)) < 65536 ->
  i = Z.to_nat (4 * writePage) ->
  dead_pages t = [] ->
  (i + 4 * page_count (tp - offset) <= length (mem t))%nat ->
  let pages := pages_of (page_count (tp - offset)) (drop offset (take tp tlv)) in
  exists t' tr',
    write_loop fuel tlv tp offset pageBuf writePage (World t tr)
      = (Some true, World t' tr') /\
    mem t' = take i (mem t) ++ concat pages ++ drop (i + 4 * length pages) (mem t).
Proof.
  induction fuel as [|fuel IH];
    intros tlv tp offset pageBuf writePage t tr i Htp Hoff Hbuf Hfuel Hpage Hmax
      Hi Hdead Hmem; cbv zeta; cbn [write_loop];
    destruct (Nat.ltb_spec offset tp) as [Hlt|Hge]; try lia.
  - exists t, tr. split; [done|].
    replace (tp - offset)%nat with O by lia. simpl.
    by rewrite Nat.add_0_r, take_drop.
  - rewrite pages_of_step by lia.
    rewrite (page_count_step (tp - offset)) in Hmax, Hmem by lia.
    replace (tp - offset - Nat.min (tp - offset) 4)%nat
      with (tp - Nat.min tp (offset + 4))%nat in Hmax, Hmem by lia.
    rewrite fill_page_four by done.
    set (pg := pad 4 (drop offset (take tp tlv))).
    assert (Hpg : length pg = 4%nat) by apply (pad_length 4).
    unfold bind, WritePage. cbn [dev trace].
    change (ntag2xx_WritePage t writePage pg) with (mem_write t writePage pg).
    unfold mem_write, in_tag. rewrite Hdead.
    destruct (Z.leb_spec 0 writePage) as [_|?]; [|lia].
    destruct (Nat.leb_spec (Z.to_nat (4 * writePage) + 4) (length (mem t)))
      as [_|?]; [|lia].
    cbn [andb negb bool_decide decide_rel]. rewrite bool_decide_eq_false_2
      by apply not_elem_of_nil.
    cbn [negb]. unfold to_u16. rewrite Z.mod_small by lia.
    rewrite take_app_length' by done. rewrite <- Hi.
    set (t1 := {| mem := take i (mem t) ++ pg ++ drop (i + 4) (mem t);
                  present := present t; dead_pages := [] |}).
    assert (Hlen1 : length (mem t1) = length (mem t)).
    { cbn [t1 mem]. rewrite !length_app, length_take, length_drop. lia. }
    destruct (IH tlv tp (Nat.min tp (offset + 4)) pg (writePage + 1) t1
                (tr ++ [EvWritePage writePage pg true]) (i + 4)%nat)
      as (t' & tr' & Hrun & Hmem'); try done; try lia.
    exists t', tr'. split; [exact Hrun|]. rewrite Hmem'. cbn [t1 mem concat length].
    set (pages := pages_of _ _).
    assert (Htake : take (i + 4) (take i (mem t) ++ pg ++ drop (i + 4) (mem t))
                    = take i (mem t) ++ pg).
    { rewrite app_assoc. apply take_app_length'.
      rewrite length_app, length_take. lia. }
    assert (Hdrop : drop (i + 4 + 4 * length pages)
                      (take i (mem t) ++ pg ++ drop (i + 4) (mem t))
                    = drop (i + 4 * S (length pages)) (mem t)).
    { rewrite app_assoc, drop_app_add' by (rewrite length_app, length_take; lia).
      rewrite drop_drop. f_equal. lia. }
    rewrite Htake, Hdrop. by rewrite <- !app_assoc.
  - exists t, tr. split; [done|].
    replace (tp - offset)%nat with O by lia. simpl.
    by rewrite Nat.add_0_r, take_drop.
Qed.

(** Writing a tag in memory, and the bytes it then offers. *)
Lemma mem_write_read (t : MemTag) (tr : list event) (url : list Z) :
  c_string url ->
  (length url <= 200)%nat ->
  dead_pages t = [] ->
  (16 + 4 * page_count (length url + 8) <= length (mem t))%nat ->
  exists t' tr',
    writeNtagUri url (World t tr) = (Some true, World t' tr') /\
    read_result (concat (supply 128 4 t')) = Uri url.
Proof.
  intros Hurl Hlen Hdead Hroom.
  pose proof (c_string_strlen _ Hurl) as Hs.
  assert (Hlen' : (strlen url <= 200)%nat) by lia.
  unfold writeNtagUri.
  destruct (compose_tlv_bytes url Hlen')
    as (ndef & [tlv tp] & -> & -> & Htp & Hcap & Hw).
  cbn [fst snd] in Htp, Hcap. unfold written in Hw. cbn [fst snd] in Hw.
  pose proof (tlv_bytes_length url) as HT. rewrite Hs in HT.
  unfold bind, ReadPage. cbn [dev trace].
  change (ntag2xx_ReadPage t 4) with (mem_read t 4).
  unfold mem_read, in_tag.
  destruct (Nat.leb_spec (Z.to_nat (4 * 4) + 4) (length (mem t))) as [H20|?];
    [|pose proof (page_count_step (length url + 8)); lia].
  change ((0 <=? 4) && true) with true. cbv beta iota.
  set (buf := to_u8 <$> _).
  assert (Hbuf : length buf = 4%nat).
  { unfold buf. rewrite length_fmap, length_take, length_drop. lia. }
  pose proof (page_count_bound (tp - 0)) as Hpc.
  destruct (mem_write_loop tp tlv tp 0 buf 4 t (tr ++ [EvReadPage 4 true]) 16)
    as (t' & tr' & -> & Hmem); try done; try lia.
  { rewrite Nat.sub_0_r, Htp, HT. exact Hroom. }
  exists t', tr'. split; [done|].
  rewrite Nat.sub_0_r, drop_0, Hw, Htp, HT in Hmem.
  set (k := page_count (length url + 8)) in *.
  rewrite pages_of_length in Hmem.
  pose proof (page_count_cover (length url + 8)) as Hk. fold k in Hk.
  rewrite pages_of_concat in Hmem by (rewrite HT; lia).
  assert (Hk52 : (k <= 52)%nat) by (unfold k; div4_lia).
  destruct (mem_supply_prefix k 128 4 t') as [rest Hsupply]; [lia..| |].
  { rewrite Hmem, !length_app, length_take, length_replicate, length_drop. lia. }
  rewrite Hsupply, Hmem.
  change (Z.to_nat (4 * 4)) with 16%nat.
  rewrite drop_app_length' by (rewrite length_take; lia).
  rewrite take_app_length' by (rewrite length_app, length_replicate; lia).
  rewrite to_u8_id.
  - rewrite <- app_assoc. apply (read_result_written url [] _ Hurl Hlen).
    constructor.
  - apply Forall_app. split; [by apply tlv_bytes_u8|].
    apply Forall_replicate. unfold is_u8. lia.
Qed.


(** X10: on a tag that keeps what is written to it, when it has room
    for the pages of the TLV and refuses no write, [writeNtagUri]
    succeeds and a following [readNtagNdefUri] returns the URL that was
    written, whatever the tag held before. *)
Theorem written_tag_reads_back (t : MemTag) (tr : list event) (url : list Z) :
  c_string url ->
  (length url <= 200)%nat ->
  dead_pages t = [] ->
  (16 + 4 * page_count (length url + 8) <= length (mem t))%nat ->
  let r := writeNtagUri url (World t tr) in
  r.1 = Some true /\ (readNtagNdefUri r.2).1 = Uri url.
Proof.
  intros Hurl Hlen Hdead Hroom.
  destruct (mem_write_read t tr url Hurl Hlen Hdead Hroom)
    as (t' & tr' & Hrun & Hread).
  cbv zeta. rewrite Hrun. cbn [fst snd]. split; [done|].
  rewrite readNtagNdefUri_spec. unfold tag_stream. exact Hread.
Qed.

Lemma written_tag_reads_back_witness :
  let url := cstr "https://www.github.com" in
  let t := {| mem := replicate 64 0xAB; present := true; dead_pages := [] |} in
  let r := writeNtagUri url (World t []) in
  r.1 = Some true /\ (readNtagNdefUri r.2).1 = Uri url.
Proof.
  intros url t. apply (written_tag_reads_back t [] url).
  - by_evaluation.
  - simpl. lia.
  - reflexivity.
  - vm_compute. lia.
Defined.

(** ** The squares of the QR code *)











(** A code wider than the panel: 87 pixels on a panel of 50.  The
    division of line 87 rounds -37 / 2 to -18; the first of the 29 squares
    is 18 pixels left of the panel's edge and the last ends 19 pixels
    right of it. *)
Example display_narrow_panel :
  let calls := displayQRCodeWithLabel_calls 50 diagonal_code
                 {| name := "GitHub"; url := "https://www.github.com" |} in
  calls !! 5%nat = Some (EpdFillRect (-18) 20 3 3) /\
  calls !! 33%nat = Some (EpdFillRect 66 104 3 3) /\
  length calls = 35%nat.
Proof. vm_compute. by repeat split. Qed.

(** The first calls on the panel, and the last square of the diagonal
    code, for module (28, 28). *)
Example display_calls :
  let calls := displayQRCodeWithLabel_calls 250 diagonal_code
                 {| name := "GitHub"; url := "https://www.github.com" |} in
  take 6 calls = [EpdClearBuffer; EpdSetTextSize 1; EpdSetTextColor;
                  EpdSetCursor 10 0; EpdPrint "GitHub"; EpdFillRect 81 20 3 3] /\
  drop 33 calls = [EpdFillRect 165 104 3 3; EpdDisplay].
Proof. vm_compute. by split. Qed.

(** ** The earlier sketch and the serial-driven sketch *)

Section Other_sketches.
Context {D : Type} `{!PagedTagTransport D}.

(** X12: in the earlier sketch every call of [loop] renders: [calls]
    calls from an index inside the list render that many consecutive
    entries, going round, call nothing else, leave the transport alone,
    and end [calls] steps further modulo the length of the list. *)
Theorem rotator_renders_every_call (calls : nat) : forall (i : Z) (w : world D),
  0 <= i < numQRs ->
  Rotator.run calls i w
  = (Some ((i + Z.of_nat calls) mod numQRs),
     World (dev w) (trace w ++ (EvRender <$> rotation i calls))).
Proof.
  induction calls as [|calls IH]; intros i w Hi; cbn [Rotator.run rotation].
  { rewrite Z.add_0_r, Z.mod_small by done. cbn [fmap list_fmap].
    rewrite app_nil_r. by destruct w. }
  unfold bind, Rotator.loop.
  assert (exists qr, qrList_at i = Some qr) as [qr Hqr].
  { unfold qrList_at. destruct (Z.leb_spec 0 i); [|lia].
    apply lookup_lt_is_Some_2. unfold numQRs in Hi. lia. }
  rewrite Hqr. unfold bind, displayQRCodeWithLabel, ret.
  rewrite Z.rem_mod_nonneg by (unfold numQRs in *; simpl; lia).
  rewrite IH by (apply Z.mod_pos_bound; unfold numQRs; simpl; lia).
  cbn [dev trace]. rewrite Zplus_mod_idemp_l, <- app_assoc.
  do 3 f_equal. lia.
Qed.


End Other_sketches.

Lemma rotator_renders_every_call_witness :
  Rotator.run 4 2 absent_tag
  = (Some ((2 + Z.of_nat 4) mod numQRs),
     World (dev absent_tag) (trace absent_tag ++ (EvRender <$> rotation 2 4))).
Proof.
  apply (rotator_renders_every_call 4 2 absent_tag). vm_compute. by split.
Defined.


(** ** printKeyHex *)

(** X14: [printKeyHex] always prints 17 characters when the core
    prints a byte below 0x10 as one character and any other byte as two:
    the '0' the sketch puts in front pads every byte to two characters,
    which come at the positions [3 i] and [3 i + 1], and the colons at the
    five positions [3 j + 2]. *)
Theorem printKeyHex_is_fixed_width (print_HEX : Z -> list Z) (key : list Z) :
  (forall b, 0 <= b < 16 -> length (print_HEX b) = 1%nat) ->
  (forall b, 16 <= b < 256 -> length (print_HEX b) = 2%nat) ->
  length key = 6%nat ->
  Forall is_u8 key ->
  let out := printKeyHex print_HEX key in
  length out = 17%nat /\
  (forall j, (j < 5)%nat -> out !! (3 * j + 2)%nat = Some 58) /\
  (forall i, (i < 6)%nat ->
     take 2 (drop (3 * i) out)
     = (if key.[i] <? 0x10 then [48] else []) ++ print_HEX key.[i]).
Proof.
  intros H1 H2 Hlen Hu8.
  assert (Hpad : forall b, is_u8 b ->
            exists c1 c2, forall rest,
              (if b <? 0x10 then cstr "0" else []) ++ print_HEX b ++ rest
              = c1 :: c2 :: rest /\
              (if b <? 0x10 then [48] else []) ++ print_HEX b = [c1; c2]).
  { intros b Hb. unfold is_u8 in Hb. destruct (Z.ltb_spec b 16).
    - specialize (H1 b ltac:(lia)).
      destruct (print_HEX b) as [|c [|]]; try done. by eexists _, _.
    - specialize (H2 b ltac:(lia)).
      destruct (print_HEX b) as [|c1 [|c2 [|]]]; try done. by eexists _, _. }
  destruct key as [|k0 [|k1 [|k2 [|k3 [|k4 [|k5 [|]]]]]]]; try done.
  repeat match goal with
  | H : Forall _ (_ :: _) |- _ => apply Forall_cons in H as [? H]
  end.
  unfold printKeyHex.
  cbn [printKeyHex_loop rd lookup list_lookup default from_option id
       Nat.ltb Nat.leb].
  change (cstr ":") with [58].
  destruct (Hpad k0) as (a0 & b0 & E0); [done|].
  destruct (Hpad k1) as (a1 & b1 & E1); [done|].
  destruct (Hpad k2) as (a2 & b2 & E2); [done|].
  destruct (Hpad k3) as (a3 & b3 & E3); [done|].
  destruct (Hpad k4) as (a4 & b4 & E4); [done|].
  destruct (Hpad k5) as (a5 & b5 & E5); [done|].
  rewrite (proj1 (E0 _)), (proj1 (E1 _)), (proj1 (E2 _)), (proj1 (E3 _)),
    (proj1 (E4 _)), (proj1 (E5 _)).
  cbn [app].
  cbv zeta. split; [done|]. split.
  - intros j Hj. by destruct j as [|[|[|[|[|]]]]]; [..|lia].
  - intros i Hi.
    destruct i as [|[|[|[|[|[|]]]]]]; [..|lia];
      cbn [rd lookup list_lookup default from_option id];
      [rewrite (proj2 (E0 []))|rewrite (proj2 (E1 []))|rewrite (proj2 (E2 []))
      |rewrite (proj2 (E3 []))|rewrite (proj2 (E4 []))|rewrite (proj2 (E5 []))];
      done.
Qed.

Lemma printKeyHex_is_fixed_width_witness :
  let out := printKeyHex core_print_HEX [0x00; 0x1A; 0xFF; 0x07; 0x80; 0x0C] in
  length out = 17%nat /\
  (forall j, (j < 5)%nat -> out !! (3 * j + 2)%nat = Some 58) /\
  (forall i, (i < 6)%nat ->
     take 2 (drop (3 * i) out)
     = (if [0x00; 0x1A; 0xFF; 0x07; 0x80; 0x0C].[i] <? 0x10 then [48] else [])
       ++ core_print_HEX [0x00; 0x1A; 0xFF; 0x07; 0x80; 0x0C].[i]).
Proof.
  apply (printKeyHex_is_fixed_width core_print_HEX
           [0x00; 0x1A; 0xFF; 0x07; 0x80; 0x0C]).
  - intros b Hb. unfold core_print_HEX. by destruct (Z.ltb_spec b 16); [|lia].
  - intros b Hb. unfold core_print_HEX. by destruct (Z.ltb_spec b 16); [lia|].
  - reflexivity.
  - by_evaluation.
Defined.

(** A key as it appears on the serial monitor. *)
Example printKeyHex_example :
  printKeyHex core_print_HEX [0x00; 0x1A; 0xFF; 0x07; 0x80; 0x0C]
  = cstr "00:1A:FF:07:80:0C".
Proof. reflexivity. Qed.

(** ** What the return values tell *)


Section Return_values.
Context {D : Type} `{!PagedTagTransport D}.


Lemma scan_byte_inv b s : is_u8 b -> scan_inv s -> scan_inv (scan_byte b s).1.
Proof.
  unfold is_u8, scan_inv. destruct s as [st sl len c arr idx].
  cbn [seenTlvStart seenLen ndefLen collected ndefBytes ndefIndex].
  intros Hb (Hc & Hidx & Harr & Hlen & Hnone). unfold scan_byte.
  cbn [seenTlvStart seenLen ndefLen collected ndefBytes ndefIndex].
  destruct st; cbn [negb andb].
  - destruct sl; cbn [negb].
    + destruct (Z.ltb_spec (Z.of_nat c) len) as [Hlt|?]; cbn [andb].
      * destruct (Nat.ltb_spec idx MAX_NDEF) as [_|?];
          [|unfold MAX_NDEF in *; lia].
        specialize (Hlen eq_refl).
        destruct (len <=? Z.of_nat (S c));
          cbn [fst seenLen ndefLen collected ndefBytes ndefIndex];
          rewrite length_insert; intuition lia.
      * cbn [fst seenLen ndefLen collected ndefBytes ndefIndex]. intuition lia.
    + specialize (Hnone eq_refl). subst c.
      destruct (b =? 0);
        cbn [fst seenLen ndefLen collected ndefBytes ndefIndex];
        intuition lia.
  - destruct (b =? 0); [|destruct (b =? 3)];
      cbn [fst seenLen ndefLen collected ndefBytes ndefIndex]; intuition lia.
Qed.

Lemma feed_inv bytes : forall s,
  Forall is_u8 bytes -> scan_inv s -> scan_inv (feed bytes s).1.
Proof.
  induction bytes as [|b bytes IH]; intros s Hu8 Hs; [done|].
  apply Forall_cons in Hu8 as [Hb Hu8]. cbn [feed].
  pose proof (scan_byte_inv b s Hb Hs) as Hs'.
  destruct (scan_byte b s) as [s' []]; [by apply IH|done].
Qed.

Lemma pfx_of_length c : (length (pfx_of c) <= 12)%nat.
Proof.
  unfold pfx_of.
  repeat match goal with |- context [?x =? ?y] => destruct (x =? y) end;
    simpl; lia.
Qed.

(** X16: whatever the tag holds and whatever the transport does, the
    reader keeps [collected] and [ndefIndex] equal and at most 255, so the
    480 cells of [ndefBytes] are never exceeded and the test against
    [MAX_NDEF] never stops a byte from being stored; the String it returns
    has at most 262 characters: 250 from the tag after a prefix of at
    most 12. *)
Theorem reader_stays_within_bounds (w : world D) :
  let s := (read_loop 128 4 scan_init w).1 in
  collected s = ndefIndex s /\
  (ndefIndex s <= 255)%nat /\
  length (ndefBytes s) = 480%nat /\
  (length (returned (readNtagNdefUri w).1) <= 262)%nat.
Proof.
  intros s.
  assert (Hinv : scan_inv s).
  { unfold s. rewrite read_loop_feed. apply feed_inv; [apply supply_bytes|].
    unfold scan_inv, scan_init. cbn. repeat split; try done; lia. }
  destruct Hinv as (Hc & Hidx & Harr & _ & _). unfold MAX_NDEF in Harr.
  split; [done|]. split; [done|]. split; [done|].
  unfold readNtagNdefUri, bind. fold s.
  destruct (read_loop 128 4 scan_init w) as [s0 w']. cbn [fst snd ret] in *.
  subst s. unfold parse_done.
  destruct (negb (seenTlvStart s0) || negb (seenLen s0) || (collected s0 =? 0)%nat);
    [simpl; lia|].
  destruct (decide (ndefIndex s0 < 5)%nat) as [Hs|Hs].
  - rewrite decode_short by done. simpl. lia.
  - rewrite decode_spec by lia. cbn [returned].
    rewrite length_app, length_drop, length_take.
    pose proof (pfx_of_length (ndefBytes s0).[4]). lia.
Qed.

End Return_values.

(** The bound is reached: a TLV of 255 bytes with the identifier code
    0x02 reads as 12 + 250 characters. *)
Example longest_uri :
  let w := tag_of_bytes ([0x03; 0xFF; 0xD1; 0x01; 0xFB; 0x55; 0x02]
                         ++ replicate 250 0x61 ++ [0xFE; 0x00; 0x00]) in
  length (returned (readNtagNdefUri w).1) = 262%nat.
Proof. vm_compute. reflexivity. Qed.

(** A tag as it comes from the factory, with a lock control TLV
    (01 03 A0 0C 34) before the NDEF TLV of "a": the 0x03 that is the
    length of the first TLV is taken for the tag byte, 0xA0 for the length,
    and what comes back is not the URL. *)
Example lock_control_tlv_misleads :
  let w := tag_of_bytes [0x01; 0x03; 0xA0; 0x0C; 0x34; 0x03; 0x06; 0xD1;
                         0x01; 0x02; 0x55; 0x00; 0x61; 0xFE; 0x00; 0x00] in
  (readNtagNdefUri w).1
  = Uri [0x01; 0x02; 0x55; 0x00; 0x61; 0xFE; 0x00; 0x00].
Proof. reflexivity. Qed.

(** ** The panel and the tag *)

Lemma qrList_urls i qr :
  qrList_at i = Some qr ->
  c_string (cstr (url qr)) /\ (length (cstr (url qr)) <= 22)%nat.
Proof.
  unfold qrList_at. destruct (Z.leb_spec 0 i) as [Hi|]; [|done].
  intros Hqr. assert (Hlt : (Z.to_nat i < 3)%nat).
  { apply lookup_lt_Some in Hqr. simpl in Hqr. lia. }
  destruct (Z.to_nat i) as [|[|[|k]]]; [..|lia]; injection Hqr as <-;
    (split; [by_evaluation|vm_compute; lia]).
Qed.

(** X17: after a tick with a tag in the field that keeps what is
    written to it, has at least 12 pages and refuses no write, the tag
    holds the URL of the entry the panel shows: [loop] has rendered the
    current entry, once, and [readNtagNdefUri] on the tag returns the URL
    of that entry. *)
Theorem tag_holds_what_panel_shows (now : Z) (g : globals) (t : MemTag)
    (tr : list event) (qr : QRInfo) :
  updateInterval <= to_ulong (now - lastUpdate g) ->
  qrList_at (currentQR g) = Some qr ->
  present t = true ->
  dead_pages t = [] ->
  (48 <= length (mem t))%nat ->
  let r := loop now g (World t tr) in
  renders (trace r.2) = renders tr ++ [qr] /\
  (readNtagNdefUri r.2).1 = Uri (cstr (url qr)).
Proof.
  intros Htick Hqr Hpresent Hdead Hroom.
  destruct (qrList_urls _ _ Hqr) as [Hurl Hlen].
  rewrite (loop_tick now g (World t tr) qr Htick Hqr). cbv zeta.
  change (readPassiveTargetID (dev (World t tr))) with (mem_probe t).
  unfold mem_probe. cbn [fst snd dev trace]. rewrite Hpresent.
  set (w1 := World t (tr ++ [EvRender qr; EvProbe true])).
  assert (Hpages : (page_count (length (cstr (url qr)) + 8) <= 8)%nat)
    by div4_lia.
  destruct (mem_write_read t (trace w1) (cstr (url qr)))
    as (t' & tr' & Hrun & Hread); [done|lia|done|lia|].
  destruct (writeNtagUri_returns (cstr (url qr)) w1) as (b & evs & _ & Ht & Hevs).
  { rewrite (c_string_strlen _ Hurl). lia. }
  change (World t (trace w1)) with w1 in Hrun. rewrite Hrun in Ht |- *.
  cbn [fst snd trace] in Ht |- *. split.
  - rewrite Ht. unfold w1. cbn [trace]. rewrite !renders_app.
    rewrite (renders_none _ Hevs), app_nil_r. done.
  - rewrite readNtagNdefUri_spec. unfold tag_stream. exact Hread.
Qed.

Lemma tag_holds_what_panel_shows_witness :
  let qr := {| name := "Purdue University"; url := "https://www.purdue.edu" |} in
  let t := {| mem := replicate 48 0xEE; present := true; dead_pages := [] |} in
  let r := loop 200000 (Globals 1 100000) (World t []) in
  renders (trace r.2) = renders [] ++ [qr] /\
  (readNtagNdefUri r.2).1 = Uri (cstr (url qr)).
Proof.
  intros qr t.
  assert (Htick : updateInterval <= to_ulong (200000 - lastUpdate (Globals 1 100000)))
    by (vm_compute; discriminate).
  assert (Hqr : qrList_at (currentQR (Globals 1 100000)) = Some qr) by reflexivity.
  assert (Hroom : (48 <= length (mem t))%nat) by (vm_compute; lia).
  exact (tag_holds_what_panel_shows 200000 (Globals 1 100000) t [] qr
           Htick Hqr eq_refl eq_refl Hroom).
Defined.
